(** * Colour-model conversions of the colour picker (src/color-var-picker.js)

    A shallow embedding of the conversion core of the picker: the three
    numeric conversions [HSVAtoRGBA], [HSVAtoHSLA] and [RGBAtoHSVA], the CSS
    variable helpers [checkIfCSSVar] and [getCSSVar], the parser [strToRGBA],
    the serialisers [RGBAToHex], [RGBAToStr] and [HSLAToStr], the format
    guess [getColorFormatFromStr], and the two functions that tie them to
    the state of the picker, [updateColor] and [setColorFromStr].

    JavaScript numbers are IEEE 754 binary64 values; they are modelled by
    Rocq's primitive [float], whose [+ - * /] are the very same correctly
    rounded operations.  The few built-ins the source calls on numbers
    ([Math.floor], [Math.round], [%], ...) are defined in module [JS] from the
    exact decomposition of a number into mantissa and exponent. *)

From Stdlib Require Import ZArith List Bool Lia String Ascii Uint63 Floats.
Import ListNotations.

Local Open Scope float_scope.

(** ** ECMAScript number built-ins *)

Module JS.

Definition number := float.

(** A numeric literal or an integer channel value as a number. *)
Definition of_int (z : Z) : number :=
  match z with
  | Zneg p => - of_uint63 (Uint63.of_pos p)
  | _ => of_uint63 (Uint63.of_Z z)
  end.

(** [frshiftexp x] splits a finite non-zero [x] into a fraction [f] with
    [0.5 <= |f| < 1] and a biased exponent [e]; with the 53-bit integer
    [M = normfr_mantissa f] this reads [|x| = M * 2^(e - frac_bias)].
    When [e < frac_bias] the lowest [frac_bias - e] bits of [M] lie below
    the binary point. *)
Definition frac_bias : int := 2154%uint63.

(** [Math.floor]: NaN, the infinities and the zeros are returned as they
    are, and so is a number without fractional bits.  Otherwise, with [k]
    fractional bits, the integer part of [|x|] is [M >> k]; a negative
    number that is not an integer goes one further down. *)
Definition Math_floor (x : number) : number :=
  if is_nan x || is_infinity x || PrimFloat.is_zero x then x else
  let (f, e) := frshiftexp x in
  if (frac_bias <=? e)%uint63 then x else
  let k := (frac_bias - e)%uint63 in
  let M := normfr_mantissa f in
  let q := (M >> k)%uint63 in
  if x <? 0
  then - of_uint63 (if (q << k =? M)%uint63 then q else (q + 1)%uint63)
  else of_uint63 q.

(** [Math.round]: the integer nearest to [x], a tie going towards
    [+infinity]; that is [floor (x + 1/2)] computed exactly.  A negative
    input that rounds to zero gives [-0]. *)
Definition Math_round (x : number) : number :=
  if is_nan x || is_infinity x || PrimFloat.is_zero x then x else
  let (f, e) := frshiftexp x in
  if (frac_bias <=? e)%uint63 then x else
  let k := (frac_bias - e)%uint63 in
  let M := normfr_mantissa f in
  let half := (1 << (k - 1))%uint63 in
  if x <? 0
  then - of_uint63 ((M + half - 1) >> k)%uint63
  else of_uint63 ((M + half) >> k)%uint63.

Definition Math_abs (x : number) : number := abs x.

(** [r * 2^n mod d], by [n] doublings; [k] counts the doublings left. *)
Fixpoint shift_mod (fuel : nat) (k r d : int) : int :=
  match fuel with
  | O => r
  | S fuel' =>
      if (k =? 0)%uint63 then r
      else shift_mod fuel' (k - 1)%uint63 ((r << 1) mod d)%uint63 d
  end.

(** Exponents of two finite numbers differ by less than this. *)
Definition exponent_span : nat := 2200.

(** The [%] operator on numbers (Number::remainder): the exact remainder
    of the truncating division, with the sign of the dividend.  When
    [|n| >= |d|] the exponent of [n] is at least that of [d], so the
    remainder of the mantissas is taken after shifting the one of [n]. *)
Definition rem (n d : number) : number :=
  if is_nan n || is_nan d || is_infinity n || PrimFloat.is_zero d then nan
  else if is_infinity d || PrimFloat.is_zero n then n
  else if abs n <? abs d then n
  else
    let (fn, en) := frshiftexp n in
    let (fd, ed) := frshiftexp d in
    let Mn := normfr_mantissa fn in
    let Md := normfr_mantissa fd in
    let r := shift_mod exponent_span (en - ed)%uint63 (Mn mod Md)%uint63 Md in
    let res := ldshiftexp (of_uint63 r) (ed - 53)%uint63 in
    if n <? 0 then - res else res.

Definition is_pos_zero (x : number) : bool :=
  if PrimFloat.is_zero x then negb (get_sign x) else false.
Definition is_neg_zero (x : number) : bool :=
  if PrimFloat.is_zero x then get_sign x else false.

(** [Math.max] and [Math.min] over their argument list: NaN if any
    argument is NaN, and [+0] counts as larger than [-0]. *)
Fixpoint max_loop (highest : number) (l : list number) : number :=
  match l with
  | [] => highest
  | n :: rest =>
      if is_nan n then nan else
      let highest :=
        if (if is_pos_zero n then is_neg_zero highest else false) then n else highest in
      max_loop (if highest <? n then n else highest) rest
  end.

Fixpoint min_loop (lowest : number) (l : list number) : number :=
  match l with
  | [] => lowest
  | n :: rest =>
      if is_nan n then nan else
      let lowest :=
        if (if is_neg_zero n then is_pos_zero lowest else false) then n else lowest in
      min_loop (if n <? lowest then n else lowest) rest
  end.

Definition Math_max (l : list number) : number := max_loop neg_infinity l.
Definition Math_min (l : list number) : number := min_loop infinity l.

(** ToBoolean on a number: false for [+0], [-0] and NaN. *)
Definition truthy (x : number) : bool := negb (PrimFloat.is_zero x || is_nan x).

(** [l[i]] for an array literal [l] and a number [i]: the element at
    position [i] when [i] is one of 0, 1, ..., length - 1 (and [-0] is 0),
    [undefined] otherwise. *)
Fixpoint array_get (l : list number) (i : number) : option number :=
  match l with
  | [] => None
  | x :: rest => if i =? 0 then Some x else array_get rest (i - 1)
  end.

(** ToNumber on a value that is a number or [undefined] ([None]). *)
Definition to_number (v : option number) : number :=
  match v with Some x => x | None => nan end.

(** [v || d] for a value [v] that is a number or [undefined]. *)
Definition or_else (v : option number) (d : number) : number :=
  match v with
  | Some x => if truthy x then x else d
  | None => d
  end.

(** The integer a number stands for, when it is one. *)
Definition to_int (x : number) : option Z :=
  if is_nan x || is_infinity x then None
  else if PrimFloat.is_zero x then Some 0%Z
  else
    let (f, e) := frshiftexp x in
    let M := normfr_mantissa f in
    let sgn := fun z : Z => if x <? 0 then Z.opp z else z in
    if (frac_bias <=? e)%uint63
    then Some (sgn (Z.shiftl (Uint63.to_Z M) (Uint63.to_Z (e - frac_bias))))
    else
      let k := (frac_bias - e)%uint63 in
      let q := (M >> k)%uint63 in
      if (q << k =? M)%uint63 then Some (sgn (Uint63.to_Z q)) else None.

End JS.

(** ** Colour records *)

Module RGBA.
Record t := mk { r : JS.number; g : JS.number; b : JS.number; a : JS.number }.
End RGBA.

Module HSVA.
Record t := mk { h : JS.number; s : JS.number; v : JS.number; a : JS.number }.
End HSVA.

Module HSLA.
Record t := mk { h : JS.number; s : JS.number; l : JS.number; a : JS.number }.
End HSLA.

(** ** The numeric conversions *)

(** [HSVAtoRGBA]: the sector index selects one entry of each channel table;
    an index outside the tables reads [undefined], which the multiplication
    by 255 turns into NaN. *)
Definition HSVAtoRGBA (hsva : HSVA.t) : RGBA.t :=
  let saturation := HSVA.s hsva / 100 in
  let value := HSVA.v hsva / 100 in
  let chroma := saturation * value in
  let hueBy60 := HSVA.h hsva / 60 in
  let x := chroma * (1 - JS.Math_abs (JS.rem hueBy60 2 - 1)) in
  let m := value - chroma in
  let chroma := chroma + m in
  let x := x + m in
  let index := JS.rem (JS.Math_floor hueBy60) 6 in
  let red := JS.array_get [chroma; x; m; m; x; chroma] index in
  let green := JS.array_get [x; chroma; chroma; x; m; m] index in
  let blue := JS.array_get [m; m; x; chroma; chroma; x] index in
  {| RGBA.r := JS.Math_round (JS.to_number red * 255);
     RGBA.g := JS.Math_round (JS.to_number green * 255);
     RGBA.b := JS.Math_round (JS.to_number blue * 255);
     RGBA.a := HSVA.a hsva |}.

(** The sector index [HSVAtoRGBA] computes for a hue. *)
Definition sector_index (h : JS.number) : JS.number :=
  JS.rem (JS.Math_floor (h / 60)) 6.

(** [HSVAtoHSLA]: [saturation] is declared without a value and assigned
    only inside the guard; [saturation || 0] replaces [undefined], 0 and NaN
    by 0. *)
Definition HSVAtoHSLA (hsva : HSVA.t) : HSLA.t :=
  let value := HSVA.v hsva / 100 in
  let lightness := value * (1 - (HSVA.s hsva / 100) / 2) in
  let saturation :=
    if (0 <? lightness) && (lightness <? 1)
    then Some (JS.Math_round
                 ((value - lightness) / JS.Math_min [lightness; 1 - lightness] * 100))
    else None in
  {| HSLA.h := HSVA.h hsva;
     HSLA.s := JS.or_else saturation 0;
     HSLA.l := JS.Math_round (lightness * 100);
     HSLA.a := HSVA.a hsva |}.

(** [RGBAtoHSVA]: [hue] and [saturation] start at 0 and are assigned only
    inside [if (chroma)]; there the three tests on the maximal channel are
    separate [if] statements, so a later one overwrites the hue set by an
    earlier one. *)
Definition RGBAtoHSVA (rgba : RGBA.t) : HSVA.t :=
  let red := RGBA.r rgba / 255 in
  let green := RGBA.g rgba / 255 in
  let blue := RGBA.b rgba / 255 in
  let xmax := JS.Math_max [red; green; blue] in
  let xmin := JS.Math_min [red; green; blue] in
  let chroma := xmax - xmin in
  let value := xmax in
  let hue :=
    if JS.truthy chroma then
      let hue := if xmax =? red then (green - blue) / chroma else 0 in
      let hue := if xmax =? green then 2 + (blue - red) / chroma else hue in
      let hue := if xmax =? blue then 4 + (red - green) / chroma else hue in
      hue
    else 0 in
  let saturation :=
    if JS.truthy chroma then (if JS.truthy xmax then chroma / xmax else 0) else 0 in
  let hue := JS.Math_floor (hue * 60) in
  {| HSVA.h := if hue <? 0 then hue + 360 else hue;
     HSVA.s := JS.Math_round (saturation * 100);
     HSVA.v := JS.Math_round (value * 100);
     HSVA.a := RGBA.a rgba |}.

(** [RGBAtoHSVA] as the specification words it: the hue is chosen by the
    maximal channel, red first, then green, then blue; it is 0 when the chroma
    is 0; the saturation is chroma/max, and 0 when max is 0. *)
Definition RGBAtoHSVA_spec (rgba : RGBA.t) : HSVA.t :=
  let red := RGBA.r rgba / 255 in
  let green := RGBA.g rgba / 255 in
  let blue := RGBA.b rgba / 255 in
  let cmax := JS.Math_max [red; green; blue] in
  let cmin := JS.Math_min [red; green; blue] in
  let chroma := cmax - cmin in
  let sector :=
    if chroma =? 0 then 0
    else if cmax =? red then (green - blue) / chroma
    else if cmax =? green then 2 + (blue - red) / chroma
    else 4 + (red - green) / chroma in
  let degrees := JS.Math_floor (sector * 60) in
  let sat := if cmax =? 0 then 0 else chroma / cmax in
  {| HSVA.h := if degrees <? 0 then degrees + 360 else degrees;
     HSVA.s := JS.Math_round (sat * 100);
     HSVA.v := JS.Math_round (cmax * 100);
     HSVA.a := RGBA.a rgba |}.

(** ** Integer-valued records and decision procedures *)

(** An RGBA record with integer channels. *)
Definition rgba_of (r g b : Z) (a : JS.number) : RGBA.t :=
  RGBA.mk (JS.of_int r) (JS.of_int g) (JS.of_int b) a.

Definition hsva_of (h s v : Z) (a : JS.number) : HSVA.t :=
  HSVA.mk (JS.of_int h) (JS.of_int s) (JS.of_int v) a.


(** The number [x] is an integer between [lo] and [hi]. *)
Definition int_between (lo hi : Z) (x : JS.number) : Prop :=
  exists z, JS.to_int x = Some z /\ (lo <= z <= hi)%Z.

Definition roundtrip (x : RGBA.t) : RGBA.t := HSVAtoRGBA (RGBAtoHSVA x).


(** The non-negative integer a number stands for, as a 63-bit integer, when
    it is one and has fractional bits to spare (so it is below 2^53). *)
Definition small_uint (x : JS.number) : option int :=
  if is_nan x || is_infinity x then None
  else if PrimFloat.is_zero x then Some 0%uint63
  else if x <? 0 then None
  else
    let (f, e) := frshiftexp x in
    let M := normfr_mantissa f in
    if (JS.frac_bias <=? e)%uint63 then None
    else
      let k := (JS.frac_bias - e)%uint63 in
      let q := (M >> k)%uint63 in
      if (q << k =? M)%uint63 then Some q else None.



Definition between_int (lo hi : int) (x : JS.number) : bool :=
  match small_uint x with
  | Some q => (lo <=? q)%uint63 && (q <=? hi)%uint63
  | None => false
  end.

(** [p i] for the [n] integers from [i] on. *)
Fixpoint all_int (n : nat) (i : int) (p : int -> bool) : bool :=
  match n with
  | O => true
  | S n' => if p i then all_int n' (i + 1)%uint63 p else false
  end.

(** [p i j] for [i] and [j] below [n1] and [n2]. *)
Definition all_int2 (n1 n2 : nat) (p : int -> int -> bool) : bool :=
  all_int n1 0 (fun i => all_int n2 0 (fun j => p i j)).

(** The three table lookups of [HSVAtoRGBA]. *)
Definition sector_lookups (hsva : HSVA.t)
  : option JS.number * option JS.number * option JS.number :=
  let saturation := HSVA.s hsva / 100 in
  let value := HSVA.v hsva / 100 in
  let chroma := saturation * value in
  let hueBy60 := HSVA.h hsva / 60 in
  let x := chroma * (1 - JS.Math_abs (JS.rem hueBy60 2 - 1)) in
  let m := value - chroma in
  let chroma := chroma + m in
  let x := x + m in
  let index := JS.rem (JS.Math_floor hueBy60) 6 in
  (JS.array_get [chroma; x; m; m; x; chroma] index,
   JS.array_get [x; chroma; chroma; x; m; m] index,
   JS.array_get [m; m; x; chroma; chroma; x] index).

Definition is_some {A} (o : option A) : bool :=
  match o with Some _ => true | None => false end.

Definition lookups_defined (hsva : HSVA.t) : bool :=
  let '(red, green, blue) := sector_lookups hsva in
  is_some red && is_some green && is_some blue.

(** The factor [1 - |h/60 mod 2 - 1|] by which [HSVAtoRGBA] scales the
    chroma to get [x]. *)
Definition hue_factor (h : JS.number) : JS.number :=
  1 - JS.Math_abs (JS.rem (h / 60) 2 - 1).

Fixpoint mem (x : JS.number) (l : list JS.number) : bool :=
  match l with
  | [] => false
  | y :: rest => if PrimFloat.Leibniz.eqb x y then true else mem x rest
  end.

Fixpoint distinct (l acc : list JS.number) : list JS.number :=
  match l with
  | [] => acc
  | x :: rest => distinct rest (if mem x acc then acc else x :: acc)
  end.

Fixpoint floats_from (n : nat) (i : int) : list JS.number :=
  match n with
  | O => []
  | S n' => of_uint63 i :: floats_from n' (i + 1)%uint63
  end.

(** The values [hue_factor] takes on the hues 0, 1, ..., 360. *)
Definition hue_factors : list JS.number :=
  Eval vm_compute in distinct (map hue_factor (floats_from 361 0)) [].

(** Two HSVA records have the same hue, saturation and value. *)
Definition hsv_same (x y : HSVA.t) : bool :=
  PrimFloat.Leibniz.eqb (HSVA.h x) (HSVA.h y)
  && PrimFloat.Leibniz.eqb (HSVA.s x) (HSVA.s y)
  && PrimFloat.Leibniz.eqb (HSVA.v x) (HSVA.v y).

(** A number that is neither NaN nor [-0] and lies strictly between the
    infinities. *)
Definition plain (x : JS.number) : Prop :=
  is_nan x = false /\ JS.is_neg_zero x = false
  /\ (neg_infinity <? x) = true /\ (x <? infinity) = true.

(** [x] is below [y]: what the comparisons, the difference [y - x] and the
    truth value of [y] then are. *)
Definition ordered (x y : JS.number) : Prop :=
  (x <? y) = true /\ (y <? x) = false /\ (x =? y) = false /\ (y =? x) = false
  /\ JS.truthy (y - x) = true /\ (y - x =? 0) = false
  /\ JS.truthy y = true /\ (y =? 0) = false.

(** * Strings, patterns and the platform *)

Local Close Scope float_scope.

(** ** Strings

    A string is modelled with 8-bit code units. *)

Module Str.
Local Open Scope string_scope.

Definition code (c : ascii) : N := N_of_ascii c.

Definition is_digit (c : ascii) : bool := (48 <=? code c)%N && (code c <=? 57)%N.

Definition is_line_terminator (c : ascii) : bool :=
  (code c =? 10)%N || (code c =? 13)%N.

Definition is_white_space (c : ascii) : bool :=
  existsb (N.eqb (code c)) [9; 10; 11; 12; 13; 32; 160]%N.

(** The upper-case form of an ASCII letter.  A pattern with the flag [i]
    compares the upper-case forms of the characters; a character outside
    ASCII never has that of an ASCII character, so for the ASCII patterns of
    the source this function decides the comparison. *)
Definition to_upper (c : ascii) : ascii :=
  if (97 <=? code c)%N && (code c <=? 122)%N then ascii_of_N (code c - 32) else c.

(** [toLowerCase] on a code unit below 256: the letters A to Z, and the
    accented capitals from 192 to 222 but for the sign at 215. *)
Definition to_lower (c : ascii) : ascii :=
  if ((65 <=? code c)%N && (code c <=? 90)%N)
     || ((192 <=? code c)%N && (code c <=? 222)%N && negb (code c =? 215)%N)
  then ascii_of_N (code c + 32) else c.

Fixpoint upper (s : string) : string :=
  match s with
  | "" => ""
  | String c s' => String (to_upper c) (upper s')
  end.

Fixpoint lower (s : string) : string :=
  match s with
  | "" => ""
  | String c s' => String (to_lower c) (lower s')
  end.

Fixpoint rev_onto (s acc : string) : string :=
  match s with
  | "" => acc
  | String c s' => rev_onto s' (String c acc)
  end.

Definition rev (s : string) : string := rev_onto s "".

Fixpoint trim_start (s : string) : string :=
  match s with
  | String c s' => if is_white_space c then trim_start s' else s
  | "" => ""
  end.

Definition trim (s : string) : string := rev (trim_start (rev (trim_start s))).

Fixpoint starts_with (p s : string) : bool :=
  match p, s with
  | "", _ => true
  | String a p', String b s' => Ascii.eqb a b && starts_with p' s'
  | String _ _, "" => false
  end.

(** [w] is in front of [s], letter case apart. *)
Fixpoint starts_with_i (w s : string) : bool :=
  match w, s with
  | "", _ => true
  | String a w', String b s' =>
      if Ascii.eqb (to_upper b) (to_upper a) then starts_with_i w' s' else false
  | String _ _, "" => false
  end.

Fixpoint drop (n : nat) (s : string) : string :=
  match n, s with
  | S n', String _ s' => drop n' s'
  | _, _ => s
  end.

Fixpoint take (n : nat) (s : string) : string :=
  match n, s with
  | S n', String c s' => String c (take n' s')
  | _, _ => ""
  end.

Fixpoint replace_first (pat rep s : string) : string :=
  if starts_with pat s then rep ++ drop (String.length pat) s
  else match s with
       | String c s' => String c (replace_first pat rep s')
       | "" => ""
       end.

(** The part of [s] in front of its suffix [s']. *)
Definition taken (s s' : string) : string := take (String.length s - String.length s') s.

Definition digit_char (d : N) : ascii :=
  if (d <? 10)%N then ascii_of_N (48 + d) else ascii_of_N (87 + d).

Fixpoint digits_onto (fuel : nat) (radix n : N) (acc : string) : string :=
  match fuel with
  | O => acc
  | S fuel' =>
      let acc' := String (digit_char (n mod radix)) acc in
      if (n / radix =? 0)%N then acc' else digits_onto fuel' radix (n / radix) acc'
  end.

(** The digits of [n] in the given radix, lowercase, without leading zeros. *)
Definition of_N (radix n : N) : string := digits_onto (S (N.size_nat n)) radix n "".

(** An integer in the given radix, with a minus sign when negative. *)
Definition of_Z (radix : N) (z : Z) : string :=
  match z with
  | Zneg p => String "-" (of_N radix (Npos p))
  | _ => of_N radix (Z.to_N z)
  end.

(** The value of a digit in radix up to 36, if it is one. *)
Definition digit_value (c : ascii) : option N :=
  let n := code c in
  if (48 <=? n)%N && (n <=? 57)%N then Some (n - 48)%N
  else if (97 <=? n)%N && (n <=? 122)%N then Some (n - 87)%N
  else if (65 <=? n)%N && (n <=? 90)%N then Some (n - 55)%N
  else None.

(** The longest prefix made of characters satisfying [p], and the rest. *)
Fixpoint span (p : ascii -> bool) (s : string) : string * string :=
  match s with
  | String c s' =>
      if p c then let (u, v) := span p s' in (String c u, v) else ("", s)
  | "" => ("", "")
  end.

Fixpoint forallb (p : ascii -> bool) (s : string) : bool :=
  match s with
  | String c s' => if p c then forallb p s' else false
  | "" => true
  end.

Definition is_empty (s : string) : bool :=
  match s with "" => true | String _ _ => false end.

Fixpoint repeat (c : ascii) (n : nat) : string :=
  match n with
  | O => ""
  | S n' => String c (repeat c n')
  end.

(** The value of a string of digits in the given radix, most significant
    first, on top of [acc]; [None] if a character is not such a digit. *)
Fixpoint value_onto (radix : N) (s : string) (acc : N) : option N :=
  match s with
  | "" => Some acc
  | String c s' =>
      match digit_value c with
      | Some d => if (d <? radix)%N then value_onto radix s' (acc * radix + d)%N else None
      | None => None
      end
  end.

Definition value (radix : N) (s : string) : option N := value_onto radix s 0%N.

Fixpoint join (sep : string) (l : list string) : string :=
  match l with
  | [] => ""
  | [x] => x
  | x :: rest => x ++ sep ++ join sep rest
  end.

(** The first character is white space. *)
Definition starts_blank (t : string) : bool :=
  match t with
  | String c _ => is_white_space c
  | "" => false
  end.

(** [t] is [v] without the white space at its two ends. *)
Definition trimmed (v t : string) : Prop :=
  exists l r, v = l ++ t ++ r /\
              forallb is_white_space l = true /\
              forallb is_white_space r = true /\
              starts_blank t = false /\ starts_blank (rev t) = false.

End Str.


(** ** Regular expressions *)

Module Regex.
Local Open Scope string_scope.

(** The fragment of the pattern language the source uses.  Quantifiers range
    over a character class. *)
Inductive t :=
| Eps
| Chr (p : ascii -> bool)
| Seq (r1 r2 : t)
| Alt (r1 r2 : t)
| Group (n : nat) (r : t)
| Plus (p : ascii -> bool)
| LazyStar (p : ascii -> bool)
| Times (k : nat) (p : ascii -> bool)
| Bol
| Eol.

Definition captures := list (nat * string).

Section Run.
Context {A : Type}.

(** [p]* greedy, then [k]: the longest run first, one character less on
    failure. *)
Fixpoint greedy (p : ascii -> bool) (s : string) (c : captures)
    (k : string -> captures -> option A) : option A :=
  match s with
  | String a s' =>
      if p a then
        match greedy p s' c k with
        | Some x => Some x
        | None => k s c
        end
      else k s c
  | "" => k s c
  end.

(** [p]*? then [k]: [k] first, one character more on failure. *)
Fixpoint lazy_star (p : ascii -> bool) (start : bool) (s : string) (c : captures)
    (k : bool -> string -> captures -> option A) : option A :=
  match k start s c with
  | Some x => Some x
  | None =>
      match s with
      | String a s' => if p a then lazy_star p false s' c k else None
      | "" => None
      end
  end.

Fixpoint times (n : nat) (p : ascii -> bool) (start : bool) (s : string) (c : captures)
    (k : bool -> string -> captures -> option A) : option A :=
  match n with
  | O => k start s c
  | S n' =>
      match s with
      | String a s' => if p a then times n' p false s' c k else None
      | "" => None
      end
  end.

(** Backtracking match of [r] at the front of [s]; [start] tells whether
    [s] is the whole input; [k] is what remains to be matched. *)
Fixpoint run (r : t) (start : bool) (s : string) (c : captures)
    (k : bool -> string -> captures -> option A) : option A :=
  match r with
  | Eps => k start s c
  | Chr p =>
      match s with
      | String a s' => if p a then k false s' c else None
      | "" => None
      end
  | Seq r1 r2 => run r1 start s c (fun start' s' c' => run r2 start' s' c' k)
  | Alt r1 r2 =>
      match run r1 start s c k with
      | Some x => Some x
      | None => run r2 start s c k
      end
  | Group n r' =>
      run r' start s c (fun start' s' c' => k start' s' ((n, Str.taken s s') :: c'))
  | Plus p =>
      match s with
      | String a s' => if p a then greedy p s' c (k false) else None
      | "" => None
      end
  | LazyStar p => lazy_star p start s c k
  | Times n p => times n p start s c k
  | Bol => if start then k start s c else None
  | Eol => match s with "" => k start s c | String _ _ => None end
  end.

End Run.

(** The result of a successful match: the text matched and the groups. *)
Record result := { matched : string; groups : captures }.

Fixpoint group (n : nat) (c : captures) : option string :=
  match c with
  | [] => None
  | (m, s) :: rest => if Nat.eqb n m then Some s else group n rest
  end.

(** The end of a match that began at [s]: what is left is [s']. *)
Definition found (s : string) : bool -> string -> captures -> option result :=
  fun _ s' c => Some {| matched := Str.taken s s'; groups := c |}.

(** [exec]: the first position, from the left, where the pattern matches. *)
Fixpoint exec_from (r : t) (start : bool) (s : string) : option result :=
  match run r start s [] (found s) with
  | Some m => Some m
  | None =>
      match s with
      | String _ s' => exec_from r false s'
      | "" => None
      end
  end.

Definition exec (r : t) (s : string) : option result := exec_from r true s.

(** All the matches of a pattern with the global flag, left to right; an
    empty match moves on by one character. *)
Fixpoint match_all_from (fuel : nat) (r : t) (start : bool) (s : string) : list string :=
  match fuel with
  | O => []
  | S fuel' =>
      match run r start s [] (fun _ s' _ => Some s') with
      | Some s' =>
          if (String.length s' <? String.length s)%nat
          then Str.taken s s' :: match_all_from fuel' r false s'
          else match s with
               | String _ rest => "" :: match_all_from fuel' r false rest
               | "" => [""]
               end
      | None =>
          match s with
          | String _ rest => match_all_from fuel' r false rest
          | "" => []
          end
      end
  end.

(** [String.prototype.match] with a global pattern: [null] without a match. *)
Definition match_all (r : t) (s : string) : option (list string) :=
  match match_all_from (S (String.length s)) r true s with
  | [] => None
  | l => Some l
  end.

(** A literal, compared without regard to case (flag [i]). *)
Fixpoint literal_i (w : string) : t :=
  match w with
  | "" => Eps
  | String c w' => Seq (Chr (fun a => Ascii.eqb (Str.to_upper a) (Str.to_upper c))) (literal_i w')
  end.

Definition digit : ascii -> bool := Str.is_digit.                      (* \d *)
Definition non_digit (c : ascii) : bool := negb (Str.is_digit c).     (* \D *)
Definition digit_or_dot (c : ascii) : bool := Str.is_digit c || Ascii.eqb c ".".  (* [\d.] *)
Definition any (c : ascii) : bool := negb (Str.is_line_terminator c).  (* . *)

End Regex.

Local Open Scope string_scope.

(** /^var\((--.+)\)$/i *)
Definition css_var_pattern : Regex.t :=
  Regex.Seq Regex.Bol
    (Regex.Seq (Regex.literal_i "var(")
       (Regex.Seq (Regex.Group 1 (Regex.Seq (Regex.literal_i "--") (Regex.Plus Regex.any)))
          (Regex.Seq (Regex.literal_i ")") Regex.Eol))).

(** The last group, ([\d.]+|$). *)
Definition alpha_group : Regex.t :=
  Regex.Group 6 (Regex.Alt (Regex.Plus Regex.digit_or_dot) Regex.Eol).

(** /^((rgba)|rgb)[\D]+([\d.]+)[\D]+([\d.]+)[\D]+([\d.]+)[\D]*?([\d.]+|$)/i *)
Definition rgba_pattern : Regex.t :=
  Regex.Seq Regex.Bol
    (Regex.Seq (Regex.Group 1 (Regex.Alt (Regex.Group 2 (Regex.literal_i "rgba"))
                                         (Regex.literal_i "rgb")))
    (Regex.Seq (Regex.Plus Regex.non_digit)
    (Regex.Seq (Regex.Group 3 (Regex.Plus Regex.digit_or_dot))
    (Regex.Seq (Regex.Plus Regex.non_digit)
    (Regex.Seq (Regex.Group 4 (Regex.Plus Regex.digit_or_dot))
    (Regex.Seq (Regex.Plus Regex.non_digit)
    (Regex.Seq (Regex.Group 5 (Regex.Plus Regex.digit_or_dot))
    (Regex.Seq (Regex.LazyStar Regex.non_digit) alpha_group)))))))).

(** /.{2}/g *)
Definition pair_pattern : Regex.t := Regex.Times 2 Regex.any.


(** ** Numbers and their text *)

Module Num.
Local Open Scope string_scope.
Local Open Scope Z_scope.

(** The number nearest to [n / d], a tie going to the even mantissa, for
    [n >= 0] and [d > 0]: the rounding of a mathematical value to a Number. *)
Definition of_ratio (n d : Z) : JS.number :=
  match n, d with
  | Zpos p, Zpos q => SF2Prim (SFdiv prec emax (S754_finite false p 0) (S754_finite false q 0))
  | _, _ => 0%float
  end.

(** [v * 10^t] rounded to a number. *)
Definition of_decimal (v t : Z) : JS.number :=
  if 0 <=? t then of_ratio (v * 10 ^ t) 1 else of_ratio v (10 ^ (- t)).

(** The exact value [m * 2^e] of a finite number as a fraction. *)
Definition scaled (m : positive) (e : Z) : Z * Z :=
  if 0 <=? e then (Zpos m * 2 ^ e, 1) else (Zpos m, 2 ^ (- e)).

(** A fraction divided by [10^d]. *)
Definition scale10 (q : Z * Z) (d : Z) : Z * Z :=
  let (num, den) := q in
  if 0 <=? d then (num, den * 10 ^ d) else (num * 10 ^ (- d), den).

(** The least [j] from the given one on with [num * 10^j >= den]. *)
Fixpoint lift (fuel : nat) (num den j : Z) : Z :=
  match fuel with
  | O => j
  | S fuel' => if den <=? num then j else lift fuel' (num * 10) den (j + 1)
  end.

(** The [n] with [10^(n-1) <= num/den < 10^n]. *)
Definition decimal_exponent (q : Z * Z) : Z :=
  let (num, den) := q in
  if den <=? num then Z.of_nat (String.length (Str.of_N 10 (Z.to_N (num / den))))
  else 1 - lift 400 num den 0.

(** The [k]-digit decimals next to [x = q] (of decimal exponent [E]) that
    round to [x], if any: the digits [s] and the exponent [n] of
    [s * 10^(n-k)]; of two, the one nearer to [x]. *)
Definition candidate (x : JS.number) (q : Z * Z) (E k : Z) : option (Z * Z) :=
  let d := E - k in
  let (num, den) := scale10 q d in
  let lo := num / den in
  let r := num mod den in
  let hi := lo + 1 in
  let ok_lo := PrimFloat.eqb (of_decimal lo d) x in
  let ok_hi := PrimFloat.eqb (of_decimal hi d) x in
  let hi_pair := if hi <? 10 ^ k then (hi, E) else (10 ^ (k - 1), E + 1) in
  match ok_lo, ok_hi with
  | true, true =>
      Some (if 2 * r <? den then (lo, E)
            else if den <? 2 * r then hi_pair
            else if Z.even lo then (lo, E) else hi_pair)
  | true, false => Some (lo, E)
  | false, true => Some hi_pair
  | false, false => None
  end.

(** The shortest decimal that rounds to [x]: as few digits as possible. *)
Fixpoint shortest (fuel : nat) (x : JS.number) (q : Z * Z) (E k : Z) : Z * Z :=
  match fuel with
  | O => (fst (scale10 q (E - k)) / snd (scale10 q (E - k)), E)
  | S fuel' =>
      match candidate x q E k with
      | Some sn => sn
      | None => shortest fuel' x q E (k + 1)
      end
  end.

Definition zeros (n : Z) : string := Str.repeat "0" (Z.to_nat n).

(** The text of the decimal with digits [s] and exponent [n]
    (Number::toString, steps 7 to 11). *)
Definition format (s n : Z) : string :=
  let ds := Str.of_N 10 (Z.to_N s) in
  let k := Z.of_nat (String.length ds) in
  if (k <=? n) && (n <=? 21) then ds ++ zeros (n - k)
  else if (0 <? n) && (n <=? 21) then Str.take (Z.to_nat n) ds ++ "." ++ Str.drop (Z.to_nat n) ds
  else if (-6 <? n) && (n <=? 0) then "0." ++ zeros (- n) ++ ds
  else
    let e := n - 1 in
    let exponent := (if e <? 0 then "-" else "+") ++ Str.of_N 10 (Z.to_N (Z.abs e)) in
    if k =? 1 then ds ++ "e" ++ exponent
    else Str.take 1 ds ++ "." ++ Str.drop 1 ds ++ "e" ++ exponent.

(** ToString on a number (Number::toString with radix 10). *)
Definition to_string (x : JS.number) : string :=
  match Prim2SF x with
  | S754_nan => "NaN"
  | S754_zero _ => "0"
  | S754_infinity sg => if sg then "-Infinity" else "Infinity"
  | S754_finite sg m e =>
      let q := scaled m e in
      let (s, n) := shortest 17 (abs x) q (decimal_exponent q) 1 in
      (if sg then "-" else "") ++ format s n
  end.

(** [x.toString(radix)] for a radix other than 10.  An integer is written
    exactly; how many digits follow the point of another number is left to
    the implementation, here [fraction_digits]. *)
Section Radix.
Variable fraction_digits : N -> JS.number -> string.

Definition Number_toString (radix : N) (x : JS.number) : string :=
  if (radix =? 10)%N then to_string x else
  match Prim2SF x with
  | S754_nan => "NaN"
  | S754_zero _ => "0"
  | S754_infinity sg => if sg then "-Infinity" else "Infinity"
  | S754_finite sg m e =>
      let (num, den) := scaled m e in
      (if sg then "-" else "") ++ Str.of_N radix (Z.to_N (num / den)) ++
      (if num mod den =? 0 then "" else "." ++ fraction_digits radix x)
  end.

End Radix.

(** [n.toString(radix)] for an integer [n]. *)
Definition Int_toString (radix : N) (n : Z) : string := Str.of_Z radix n.

(** ToInt32: the integer part, wrapped to 32 bits, two's complement. *)
Definition ToInt32 (x : JS.number) : Z :=
  match Prim2SF x with
  | S754_finite sg m e =>
      let (num, den) := scaled m e in
      let t := num / den in
      let w := (if sg then - t else t) mod 2 ^ 32 in
      if 2 ^ 31 <=? w then w - 2 ^ 32 else w
  | _ => 0
  end.

Definition is_exponent_mark (c : ascii) : bool := Ascii.eqb c "e" || Ascii.eqb c "E".

(** A leading sign: whether it is a minus, and what follows it. *)
Definition sign (s : string) : bool * string :=
  match s with
  | String "+" r => (false, r)
  | String "-" r => (true, r)
  | _ => (false, s)
  end.

Definition digits10 (s : string) : Z :=
  match Str.value 10 s with Some v => Z.of_N v | None => 0 end.

(** The exponent part of a decimal literal, [None] if [s] is not one;
    no exponent part counts as 0. *)
Definition exponent_part (s : string) : option Z :=
  match s with
  | "" => Some 0
  | String c r =>
      if is_exponent_mark c then
        let (neg, r') := sign r in
        let (ds, rest) := Str.span Str.is_digit r' in
        if Str.is_empty ds || negb (Str.is_empty rest) then None
        else Some (if neg then - digits10 ds else digits10 ds)
      else None
  end.

(** StrUnsignedDecimalLiteral: its value, [None] if [s] is not one. *)
Definition unsigned_decimal (s : string) : option JS.number :=
  if String.eqb s "Infinity" then Some infinity else
  let (ip, r1) := Str.span Str.is_digit s in
  let (fp, r2) := match r1 with
                  | String "." r => Str.span Str.is_digit r
                  | _ => ("", r1)
                  end in
  if Str.is_empty ip && Str.is_empty fp then None else
  match exponent_part r2 with
  | Some ev => Some (of_decimal (digits10 (ip ++ fp)) (ev - Z.of_nat (String.length fp)))
  | None => None
  end.

(** NonDecimalIntegerLiteral: [0x], [0o] or [0b] and digits of that radix. *)
Definition non_decimal (s : string) : option JS.number :=
  match s with
  | String "0" (String c r) =>
      let radix : option N :=
        if Ascii.eqb (Str.to_upper c) "X" then Some 16%N
        else if Ascii.eqb (Str.to_upper c) "O" then Some 8%N
        else if Ascii.eqb (Str.to_upper c) "B" then Some 2%N
        else None in
      match radix with
      | Some n =>
          if Str.is_empty r then None
          else match Str.value n r with
               | Some v => Some (of_ratio (Z.of_N v) 1)
               | None => None
               end
      | None => None
      end
  | _ => None
  end.

(** ToNumber on a string (StringToNumber): NaN when the trimmed text is not
    a numeric literal, 0 when it is empty. *)
Definition of_string (s : string) : JS.number :=
  let t := Str.trim s in
  if Str.is_empty t then 0%float else
  match non_decimal t with
  | Some v => v
  | None =>
      let (neg, u) := sign t in
      match unsigned_decimal u with
      | Some v => if neg then (- v)%float else v
      | None => nan
      end
  end.

(** ToNumber on a string or [undefined]. *)
Definition of_value (v : option string) : JS.number :=
  match v with Some s => of_string s | None => nan end.

(** The digits of [n] with a point before the last [f] of them, padded
    with zeros on the left to [f + 1] digits. *)
Definition fixed_digits (f : nat) (n : Z) : string :=
  let m := Str.of_N 10 (Z.to_N n) in
  let m := Str.repeat "0" (S f - String.length m) ++ m in
  match f with
  | O => m
  | _ => let k := (String.length m - f)%nat in Str.take k m ++ "." ++ Str.drop k m
  end.

(** [x.toFixed(f)]: the integer [n] with [n / 10^f] nearest to [|x|], the
    larger of two, written with [f] digits after the point; ToString for
    NaN, the infinities and from [10^21] on. *)
Definition toFixed (f : nat) (x : JS.number) : string :=
  match Prim2SF x with
  | S754_finite sg m e =>
      let (num, den) := scaled m e in
      if 10 ^ 21 * den <=? num then to_string x
      else
        let n := (2 * num * 10 ^ Z.of_nat f + den) / (2 * den) in
        (if sg then "-" else "") ++ fixed_digits f n
  | S754_zero _ => fixed_digits f 0
  | _ => to_string x
  end.

(** [parseInt(s, radix)] for a radix from 2 to 36: the digits in front,
    after white space, a sign and, for radix 16, [0x]; NaN without a
    digit. *)
Definition parseInt (s : string) (radix : N) : JS.number :=
  let (neg, u) := sign (Str.trim_start s) in
  let u := if (radix =? 16)%N && (Str.starts_with "0x" u || Str.starts_with "0X" u)
           then Str.drop 2 u else u in
  let (ds, _) :=
    Str.span (fun c => match Str.digit_value c with
                       | Some d => (d <? radix)%N
                       | None => false
                       end) u in
  match Str.value radix ds with
  | Some v =>
      if Str.is_empty ds then nan
      else if neg then (- of_ratio (Z.of_N v) 1)%float else of_ratio (Z.of_N v) 1
  | None => nan
  end.

End Num.


(** ** Settings *)

Local Open Scope string_scope.

(** The settings the functions modelled here read. *)
Module Settings.
Record t := mk { format : string; alpha : bool; forceAlpha : bool }.
Definition defaults : t := mk "hex" true false.
End Settings.

(** ** CSS variables *)

Module CSSVar.
Record t := mk { isCSSVar : bool; cssVar : option string }.
End CSSVar.

Local Open Scope string_scope.

(** [match?.length > 0]: a match array holds the matched text, so it is
    never empty; without a match the comparison is on [undefined]. *)
Definition checkIfCSSVar (str : string) : CSSVar.t :=
  let regex := css_var_pattern in
  let match_ := Regex.exec regex str in
  CSSVar.mk
    (match match_ with
     | Some m => (0 <? S (List.length (Regex.groups m)))%nat
     | None => false
     end)
    (match match_ with
     | Some m => Regex.group 1 (Regex.groups m)
     | None => None
     end).

(** [getCSSVar].  The platform is [window.getComputedStyle], absent
    ([None]) or giving, for the document root, the function
    [getPropertyValue]; a value that is [null] or [undefined] is [None].
    The result is a string or [null] ([None]). *)
Definition getCSSVar (getComputedStyle : option (string -> option string))
    (cssVar : string) : option string :=
  match getComputedStyle with
  | Some getPropertyValue =>
      Some (match option_map Str.trim (getPropertyValue cssVar) with
            | Some v => if Str.is_empty v then cssVar else v
            | None => cssVar
            end)
  | None => None
  end.

(** ** The canvas *)

Module Canvas.

(** A colour of the 2D context: 8-bit channels, and for a colour that is
    not opaque the digits the platform writes after [0.] for its alpha.
    Colours of a wider gamut, which a context may write as [color(...)],
    are outside this model. *)
Inductive color :=
| Opaque (r g b : Byte.byte)
| Translucent (r g b : Byte.byte) (alpha : Decimal.uint).

Definition channel (c : Byte.byte) : N := Byte.to_N c.

Definition hex_digits (c : Byte.byte) : string :=
  String (Str.digit_char (channel c / 16)) (String (Str.digit_char (channel c mod 16)) "").

Fixpoint fraction (u : Decimal.uint) : string :=
  match u with
  | Decimal.Nil => ""
  | Decimal.D0 u' => String "0" (fraction u')
  | Decimal.D1 u' => String "1" (fraction u')
  | Decimal.D2 u' => String "2" (fraction u')
  | Decimal.D3 u' => String "3" (fraction u')
  | Decimal.D4 u' => String "4" (fraction u')
  | Decimal.D5 u' => String "5" (fraction u')
  | Decimal.D6 u' => String "6" (fraction u')
  | Decimal.D7 u' => String "7" (fraction u')
  | Decimal.D8 u' => String "8" (fraction u')
  | Decimal.D9 u' => String "9" (fraction u')
  end.

Definition alpha_text (u : Decimal.uint) : string :=
  match u with
  | Decimal.Nil => "0"
  | _ => "0." ++ fraction u
  end.

(** The serialisation of a colour, as the getter of [fillStyle] gives it:
    [#rrggbb] for an opaque colour, [rgba(r, g, b, a)] otherwise. *)
Definition serialize (c : color) : string :=
  match c with
  | Opaque r g b => "#" ++ hex_digits r ++ hex_digits g ++ hex_digits b
  | Translucent r g b a =>
      "rgba(" ++ Str.of_N 10 (channel r) ++ ", " ++ Str.of_N 10 (channel g) ++ ", "
              ++ Str.of_N 10 (channel b) ++ ", " ++ alpha_text a ++ ")"
  end.

Section Context.
(** The platform's parser of CSS colours. *)
Variable parse_color : string -> option color.

(** [ctx.fillStyle = s]: a string that is not a colour is ignored. *)
Definition set_fillStyle (ctx : color) (s : string) : color :=
  match parse_color s with
  | Some c => c
  | None => ctx
  end.

Definition get_fillStyle (ctx : color) : string := serialize ctx.

End Context.
End Canvas.

(** The object [strToRGBA] builds; an array read past its end leaves a
    channel [undefined]. *)
Module Parsed.
Record t := mk { r : option JS.number; g : option JS.number; b : option JS.number;
                 a : JS.number }.
End Parsed.

(** How a call ends: with a value, or with a TypeError. *)
Inductive completion (A : Type) :=
| Returned (x : A)
| Raised.
Arguments Returned {A} x.
Arguments Raised {A}.

Section Parsing.
Variable parse_color : string -> option Canvas.color.

Definition strToRGBA (ctx : Canvas.color) (str : string)
    : completion Parsed.t * Canvas.color :=
  let regex := rgba_pattern in
  let ctx := Canvas.set_fillStyle parse_color ctx "#000" in
  let ctx := Canvas.set_fillStyle parse_color ctx str in
  let match_ := Regex.exec regex (Canvas.get_fillStyle ctx) in
  (match match_ with
   | Some m =>
       let at_ (i : nat) := Regex.group i (Regex.groups m) in
       let a := (Num.of_value (at_ 6%nat) * 1)%float in
       Returned
         (Parsed.mk (Some (Num.of_value (at_ 3%nat) * 1)%float)
                    (Some (Num.of_value (at_ 4%nat) * 1)%float)
                    (Some (Num.of_value (at_ 5%nat) * 1)%float)
                    (Num.of_string (Num.toFixed 2 a)))
   | None =>
       match Regex.match_all pair_pattern
               (Str.replace_first "#" "" (Canvas.get_fillStyle ctx)) with
       | Some pairs =>
           let match_ := map (fun h => Num.parseInt h 16) pairs in
           Returned (Parsed.mk (nth_error match_ 0) (nth_error match_ 1)
                               (nth_error match_ 2) 1%float)
       | None => Raised
       end
   end, ctx).

End Parsing.

(** ** Formatting *)

Section Formatting.
Variable fraction_digits : N -> JS.number -> string.
Variable settings : Settings.t.

Definition RGBAToHex (rgba : RGBA.t) : string :=
  let R := Num.Number_toString fraction_digits 16 (RGBA.r rgba) in
  let G := Num.Number_toString fraction_digits 16 (RGBA.g rgba) in
  let B := Num.Number_toString fraction_digits 16 (RGBA.b rgba) in
  let A := "" in
  let R := if (RGBA.r rgba <? 16)%float then "0" ++ R else R in
  let G := if (RGBA.g rgba <? 16)%float then "0" ++ G else G in
  let B := if (RGBA.b rgba <? 16)%float then "0" ++ B else B in
  let A :=
    if Settings.alpha settings
       && ((RGBA.a rgba <? 1)%float || Settings.forceAlpha settings)
    then
      let alpha := Num.ToInt32 (RGBA.a rgba * 255)%float in
      let A := Num.Int_toString 16 alpha in
      if (alpha <? 16)%Z then "0" ++ A else A
    else A in
  "#" ++ R ++ G ++ B ++ A.

Definition RGBAToStr (rgba : RGBA.t) : string :=
  if negb (Settings.alpha settings)
     || ((RGBA.a rgba =? 1)%float && negb (Settings.forceAlpha settings))
  then "rgb(" ++ Num.to_string (RGBA.r rgba) ++ ", " ++ Num.to_string (RGBA.g rgba)
              ++ ", " ++ Num.to_string (RGBA.b rgba) ++ ")"
  else "rgba(" ++ Num.to_string (RGBA.r rgba) ++ ", " ++ Num.to_string (RGBA.g rgba)
               ++ ", " ++ Num.to_string (RGBA.b rgba) ++ ", "
               ++ Num.to_string (RGBA.a rgba) ++ ")".

Definition HSLAToStr (hsla : HSLA.t) : string :=
  if negb (Settings.alpha settings)
     || ((HSLA.a hsla =? 1)%float && negb (Settings.forceAlpha settings))
  then "hsl(" ++ Num.to_string (HSLA.h hsla) ++ ", " ++ Num.to_string (HSLA.s hsla)
              ++ "%, " ++ Num.to_string (HSLA.l hsla) ++ "%)"
  else "hsla(" ++ Num.to_string (HSLA.h hsla) ++ ", " ++ Num.to_string (HSLA.s hsla)
               ++ "%, " ++ Num.to_string (HSLA.l hsla) ++ "%, "
               ++ Num.to_string (HSLA.a hsla) ++ ")".

End Formatting.

(** [getColorFormatFromStr]: [substring(0, 3)] is the first three
    characters, or the whole of a shorter string. *)
Definition getColorFormatFromStr (str : string) : string :=
  let format := Str.lower (Str.take 3 str) in
  if String.eqb format "rgb" || String.eqb format "hsl" then format else "hex".

(** ** The state of the picker *)

(** [currentColor]; a channel copied from an array read past its end is
    [undefined]. *)
Module Current.
Record t := mk { r : option JS.number; g : option JS.number; b : option JS.number;
                 h : JS.number; s : JS.number; v : JS.number; a : JS.number }.
Definition initial : t :=
  mk (Some 0%float) (Some 0%float) (Some 0%float) 0%float 0%float 0%float 1%float.
End Current.

(** The variables [setColorFromStr] and [updateColor] read and write: the
    fill style of [ctx], [currentColor], [currentFormat], the property
    [value] of the element [colorValue], and the text last assigned to
    [picker.style.color]; the last three are [undefined] until set. *)
Module Picker.
Record t := mk { ctx : Canvas.color; currentColor : Current.t;
                 currentFormat : option string; colorValue : option string;
                 styleColor : option string }.
End Picker.

(** The channels of an object of [strToRGBA] as numbers: [undefined]
    in arithmetic is NaN. *)
Definition numbers (p : Parsed.t) : RGBA.t :=
  RGBA.mk (JS.to_number (Parsed.r p)) (JS.to_number (Parsed.g p))
          (JS.to_number (Parsed.b p)) (Parsed.a p).

(** A string or [null] given where a string is expected. *)
Definition of_nullable (s : option string) : string :=
  match s with
  | Some t => t
  | None => "null"
  end.

Section Picking.
Variable parse_color : string -> option Canvas.color.
Variable getComputedStyle : option (string -> option string).
Variable fraction_digits : N -> JS.number -> string.
Variable settings : Settings.t.

(** [updateColor(rgba, hsva)]; an argument left out is [None].  Reading
    the digits of a channel that is [undefined] raises. *)
Definition updateColor (st : Picker.t) (rgba : option Parsed.t) (hsva : option HSVA.t)
    : completion unit * Picker.t :=
  let format := Settings.format settings in
  let currentColor := Picker.currentColor st in
  let currentColor :=
    match rgba with
    | Some p => Current.mk (Parsed.r p) (Parsed.g p) (Parsed.b p)
                           (Current.h currentColor) (Current.s currentColor)
                           (Current.v currentColor) (Parsed.a p)
    | None => currentColor
    end in
  let currentColor :=
    match hsva with
    | Some q => Current.mk (Current.r currentColor) (Current.g currentColor)
                           (Current.b currentColor)
                           (HSVA.h q) (HSVA.s q) (HSVA.v q) (HSVA.a q)
    | None => currentColor
    end in
  let st := Picker.mk (Picker.ctx st) currentColor (Picker.currentFormat st)
                      (Picker.colorValue st) (Picker.styleColor st) in
  match Current.r currentColor, Current.g currentColor, Current.b currentColor with
  | Some r, Some g, Some b =>
      let a := Current.a currentColor in
      let hex := RGBAToHex fraction_digits settings (RGBA.mk r g b a) in
      let opaqueHex := Str.take 7 hex in
      let format :=
        if String.eqb format "mixed"
        then Some (if PrimFloat.eqb a 1 then "hex" else "rgb")
        else if String.eqb format "auto" then Picker.currentFormat st
        else Some format in
      let value :=
        match format with
        | Some f =>
            if String.eqb f "hex" then Some hex
            else if String.eqb f "rgb" then Some (RGBAToStr settings (RGBA.mk r g b a))
            else if String.eqb f "hsl"
            then Some (HSLAToStr settings
                         (HSVAtoHSLA (HSVA.mk (Current.h currentColor) (Current.s currentColor)
                                              (Current.v currentColor) a)))
            else Picker.colorValue st
        | None => Picker.colorValue st
        end in
      (Returned tt,
       Picker.mk (Picker.ctx st) currentColor (Picker.currentFormat st) value
                 (Picker.styleColor st))
  | _, _, _ => (Raised, st)
  end.

(** [setColorFromStr(str)].  The two fields of [checkIfCSSVar] come from
    one match, so a name is there when [isCSSVar] holds. *)
Definition setColorFromStr (st : Picker.t) (str : string) : completion unit * Picker.t :=
  let c := checkIfCSSVar str in
  let fullStr :=
    if CSSVar.isCSSVar c
    then match CSSVar.cssVar c with
         | Some cssVar => getCSSVar getComputedStyle cssVar
         | None => None
         end
    else Some str in
  let (result, ctx) := strToRGBA parse_color (Picker.ctx st) (of_nullable fullStr) in
  let st := Picker.mk ctx (Picker.currentColor st) (Picker.currentFormat st)
                      (Picker.colorValue st) (Picker.styleColor st) in
  match result with
  | Returned rgba =>
      let hsva := RGBAtoHSVA (numbers rgba) in
      match updateColor st (Some rgba) (Some hsva) with
      | (Returned _, st) =>
          (Returned tt,
           Picker.mk (Picker.ctx st) (Picker.currentColor st) (Picker.currentFormat st)
                     (Picker.colorValue st)
                     (Some ("hsl(" ++ Num.to_string (HSVA.h hsva) ++ ", 100%, 50%)")))
      | (Raised, st) => (Raised, st)
      end
  | Raised => (Raised, st)
  end.

End Picking.

(** ** Notions used in the statements *)

(** The digits of [k] hundredths after the point, without a zero at the
    end. *)
Definition digit_of (d : Z) (u : Decimal.uint) : Decimal.uint :=
  match d with
  | 0%Z => Decimal.D0 u
  | 1%Z => Decimal.D1 u
  | 2%Z => Decimal.D2 u
  | 3%Z => Decimal.D3 u
  | 4%Z => Decimal.D4 u
  | 5%Z => Decimal.D5 u
  | 6%Z => Decimal.D6 u
  | 7%Z => Decimal.D7 u
  | 8%Z => Decimal.D8 u
  | _ => Decimal.D9 u
  end.

Definition hundredths (k : Z) : Decimal.uint :=
  if (k =? 0)%Z then Decimal.Nil
  else if (k mod 10 =? 0)%Z then digit_of (k / 10) Decimal.Nil
  else digit_of (k / 10) (digit_of (k mod 10) Decimal.Nil).

(** [t] is made of characters other than line terminators followed by a
    final [)]. *)
Fixpoint closes (t : string) : bool :=
  match t with
  | "" => false
  | String a t' => if Str.is_empty t' then Ascii.eqb a ")" else Regex.any a && closes t'
  end.

(** What the pattern of [checkIfCSSVar] captures in [s], if it matches. *)
Definition var_name (s : string) : option string :=
  if Str.starts_with_i "var(" s then
    if Str.starts_with_i "--" (Str.drop 4 s) then
      match Str.drop 2 (Str.drop 4 s) with
      | String a r =>
          if Regex.any a then
            if closes r then Some (Str.taken (Str.drop 4 s) ")") else None
          else None
      | "" => None
      end
    else None
  else None.

(** [s] is a reference to the CSS variable [name]: the word [var] in any
    letter case, an opening parenthesis, [name], which is [--] and at least
    one more character, none of them a line terminator, and a closing
    parenthesis at the end. *)
Definition is_var_reference (s name : string) : Prop :=
  exists f x, s = f ++ "(" ++ name ++ ")" /\ Str.upper f = "VAR" /\
              name = "--" ++ x /\ x <> "" /\ Str.forallb Regex.any x = true.

(** A CSS functional notation: a name and comma-separated components. *)
Definition functional (name : string) (components : list string) : string :=
  name ++ "(" ++ Str.join ", " components ++ ")".

(** Alpha is left out of the text: the alpha setting is off, or [a] is 1
    and alpha is not forced. *)
Definition alpha_suppressed (settings : Settings.t) (a : JS.number) : bool :=
  negb (Settings.alpha settings)
  || (PrimFloat.eqb a 1 && negb (Settings.forceAlpha settings)).

(** Two lowercase hexadecimal digits for a byte. *)
Definition hex_byte (n : Z) : string :=
  String (Str.digit_char (Z.to_N (n / 16)))
         (String (Str.digit_char (Z.to_N (n mod 16))) "").

(** The hex notation of a colour with integer channels and an alpha of [k]
    hundredths: six digits, and the byte [floor (255 * k / 100)] when alpha
    is enabled and [k < 100] or alpha is forced. *)
Definition hex_notation (settings : Settings.t) (r g b k : Z) : string :=
  "#" ++ hex_byte r ++ hex_byte g ++ hex_byte b ++
  (if Settings.alpha settings && ((k <? 100)%Z || Settings.forceAlpha settings)
   then hex_byte (255 * k / 100)
   else "").

(** A channel of [RGBAToHex], padded. *)
Definition channel_text (fraction_digits : N -> JS.number -> string) (x : JS.number)
    : string :=
  if (x <? 16)%float then "0" ++ Num.Number_toString fraction_digits 16 x
  else Num.Number_toString fraction_digits 16 x.

(** The alpha byte of [RGBAToHex], padded. *)
Definition alpha_byte_text (a : JS.number) : string :=
  let alpha := Num.ToInt32 (a * 255)%float in
  if (alpha <? 16)%Z then "0" ++ Num.Int_toString 16 alpha else Num.Int_toString 16 alpha.

(** A channel of a canvas colour as a number. *)
Definition byte_number (c : Byte.byte) : JS.number := JS.of_int (Z.of_N (Canvas.channel c)).

(** What [strToRGBA] makes of the text the getter of [fillStyle] gives. *)
Definition fillStyle_to_rgba (fillStyle : string) : completion Parsed.t :=
  match Regex.exec rgba_pattern fillStyle with
  | Some m =>
      let at_ (i : nat) := Regex.group i (Regex.groups m) in
      let a := (Num.of_value (at_ 6%nat) * 1)%float in
      Returned
        (Parsed.mk (Some (Num.of_value (at_ 3%nat) * 1)%float)
                   (Some (Num.of_value (at_ 4%nat) * 1)%float)
                   (Some (Num.of_value (at_ 5%nat) * 1)%float)
                   (Num.of_string (Num.toFixed 2 a)))
  | None =>
      match Regex.match_all pair_pattern (Str.replace_first "#" "" fillStyle) with
      | Some pairs =>
          let match_ := map (fun h => Num.parseInt h 16) pairs in
          Returned (Parsed.mk (nth_error match_ 0) (nth_error match_ 1)
                              (nth_error match_ 2) 1%float)
      | None => Raised
      end
  end.

(** The object with the channels of a canvas colour and the alpha [a]. *)
Definition rgba_result (r g b : Byte.byte) (a : JS.number) : Parsed.t :=
  Parsed.mk (Some (byte_number r)) (Some (byte_number g)) (Some (byte_number b)) a.

Definition black : Canvas.color := Canvas.Opaque Byte.x00 Byte.x00 Byte.x00.

(** The string [setColorFromStr] hands to [strToRGBA]: the value of the
    variable for a reference to a CSS variable, the string itself
    otherwise. *)
Definition full_string (getComputedStyle : option (string -> option string))
    (str : string) : string :=
  let c := checkIfCSSVar str in
  of_nullable
    (if CSSVar.isCSSVar c
     then match CSSVar.cssVar c with
          | Some cssVar => getCSSVar getComputedStyle cssVar
          | None => None
          end
     else Some str).

(** The colour the context holds after [strToRGBA] was given [s]. *)
Definition held (parse_color : string -> option Canvas.color) (ctx : Canvas.color)
    (s : string) : Canvas.color :=
  Canvas.set_fillStyle parse_color (Canvas.set_fillStyle parse_color ctx "#000") s.

(** The number [strToRGBA] reads from the alpha of a serialised colour. *)
Definition alpha_value (frac : Decimal.uint) : JS.number :=
  (Num.of_string (Canvas.alpha_text frac) * 1)%float.

(** The object [strToRGBA] returns when the context holds [c]. *)
Definition canvas_rgba (c : Canvas.color) : Parsed.t :=
  match c with
  | Canvas.Opaque r g b => rgba_result r g b 1%float
  | Canvas.Translucent r g b frac =>
      rgba_result r g b (Num.of_string (Num.toFixed 2 (alpha_value frac)))
  end.

(** The same with every channel a number. *)
Definition canvas_numbers (c : Canvas.color) : RGBA.t := numbers (canvas_rgba c).

(** The text of the value field once [updateColor] has taken the colour
    [x], [hsva]: the hex, rgb or hsl notation that the format asks for, or
    the text [old] that was there when the format names none. *)
Definition value_text (fraction_digits : N -> JS.number -> string)
    (settings : Settings.t) (currentFormat old : option string)
    (x : RGBA.t) (hsva : HSVA.t) : option string :=
  let format :=
    if String.eqb (Settings.format settings) "mixed"
    then Some (if PrimFloat.eqb (RGBA.a x) 1 then "hex" else "rgb")
    else if String.eqb (Settings.format settings) "auto" then currentFormat
    else Some (Settings.format settings) in
  match format with
  | Some f =>
      if String.eqb f "hex" then Some (RGBAToHex fraction_digits settings x)
      else if String.eqb f "rgb" then Some (RGBAToStr settings x)
      else if String.eqb f "hsl" then Some (HSLAToStr settings (HSVAtoHSLA hsva))
      else old
  | None => old
  end.

(** The state of the picker once it shows the colour [c] of the context. *)
Definition showing (fraction_digits : N -> JS.number -> string)
    (settings : Settings.t) (st : Picker.t) (c : Canvas.color) : Picker.t :=
  let x := canvas_numbers c in
  let hsva := RGBAtoHSVA x in
  Picker.mk c
    (Current.mk (Some (RGBA.r x)) (Some (RGBA.g x)) (Some (RGBA.b x))
                (HSVA.h hsva) (HSVA.s hsva) (HSVA.v hsva) (HSVA.a hsva))
    (Picker.currentFormat st)
    (value_text fraction_digits settings (Picker.currentFormat st) (Picker.colorValue st)
                (RGBA.mk (RGBA.r x) (RGBA.g x) (RGBA.b x) (HSVA.a hsva)) hsva)
    (Some ("hsl(" ++ Num.to_string (HSVA.h hsva) ++ ", 100%, 50%)")).

(** [v] does not go on with a character of the class [p]. *)
Definition stops (p : ascii -> bool) (v : string) : Prop :=
  match v with
  | String a _ => p a = false
  | "" => True
  end.

(** A string of characters of the class [p], not empty. *)
Definition numeral (p : ascii -> bool) (s : string) : bool :=
  match s with
  | String d u => p d && Str.forallb p u
  | "" => false
  end.

(** The exact value of a finite number, as a fraction. *)
Definition exact_value (x : JS.number) : option (Z * Z) :=
  match Prim2SF x with
  | S754_zero _ => Some (0, 1)%Z
  | S754_finite sg m e =>
      let (num, den) := Num.scaled m e in Some (if sg then (- num)%Z else num, den)
  | _ => None
  end.

(** [n / 100] is a multiple of 1/100 nearest to [x]. *)
Definition nearest_hundredth (x : JS.number) (n : Z) : Prop :=
  match exact_value x with
  | Some (num, den) => (2 * Z.abs (100 * num - n * den) <= den)%Z
  | None => False
  end.

Definition in_unit_interval (x : JS.number) : bool := ((0 <=? x) && (x <=? 1))%float.

(** A parser that knows a few colours, for examples. *)
Definition sample_parser (s : string) : option Canvas.color :=
  if String.eqb s "#000" then Some black
  else if String.eqb s "red" then Some (Canvas.Opaque Byte.xff Byte.x00 Byte.x00)
  else if String.eqb s "#1a2b3c" then Some (Canvas.Opaque Byte.x1a Byte.x2b Byte.x3c)
  else if String.eqb s "rgba(10, 20, 30, 0.25)"
  then Some (Canvas.Translucent Byte.x0a Byte.x14 Byte.x1e (hundredths 25))
  else if String.eqb s "rgba(0, 128, 255, 0.501961)"
  then Some (Canvas.Translucent Byte.x00 Byte.x80 Byte.xff
               (Decimal.D5 (Decimal.D0 (Decimal.D1 (Decimal.D9 (Decimal.D6 (Decimal.D1 Decimal.Nil)))))))
  else None.

Local Close Scope string_scope.
Local Close Scope Z_scope.
Local Open Scope float_scope.

(** * Properties *)

(** ** Reading the decision procedures *)

Lemma all_int_spec (n : nat) (i : int) (p : int -> bool) :
  all_int n i p = true ->
  (Uint63.to_Z i + Z.of_nat n <= wB)%Z ->
  forall z, (Uint63.to_Z i <= z < Uint63.to_Z i + Z.of_nat n)%Z ->
  p (Uint63.of_Z z) = true.
Proof.
  revert i. induction n as [|n IH]; intros i H Hb z Hz; [lia|].
  cbn [all_int] in H. destruct (p i) eqn:Hp; [|discriminate].
  destruct (Z.eq_dec z (Uint63.to_Z i)) as [->|Hne].
  - rewrite Uint63.of_to_Z. exact Hp.
  - assert (Hi : Uint63.to_Z (i + 1) = (Uint63.to_Z i + 1)%Z).
    { rewrite Uint63.add_spec. change (Uint63.to_Z 1) with 1%Z.
      pose proof (Uint63.to_Z_bounded i). apply Z.mod_small. lia. }
    apply (IH (i + 1)%uint63 H); rewrite Hi; lia.
Qed.

Lemma all_int_from_0 (n : nat) (p : int -> bool) :
  all_int n 0 p = true -> (Z.of_nat n <= 1024)%Z ->
  forall z, (0 <= z < Z.of_nat n)%Z -> p (Uint63.of_Z z) = true.
Proof.
  intros H Hn z Hz. apply (all_int_spec n 0 p H).
  - change (Uint63.to_Z 0) with 0%Z. assert (1024 < wB)%Z by reflexivity. lia.
  - change (Uint63.to_Z 0) with 0%Z. lia.
Qed.

Lemma all_int2_spec (n1 n2 : nat) (p : int -> int -> bool) :
  all_int2 n1 n2 p = true ->
  (Z.of_nat n1 <= 1024)%Z -> (Z.of_nat n2 <= 1024)%Z ->
  forall i j, (0 <= i < Z.of_nat n1)%Z -> (0 <= j < Z.of_nat n2)%Z ->
    p (Uint63.of_Z i) (Uint63.of_Z j) = true.
Proof.
  intros H H1 H2 i j Hi Hj. unfold all_int2 in H.
  pose proof (all_int_from_0 _ _ H H1 i Hi) as Hi'. cbv beta in Hi'.
  exact (all_int_from_0 _ _ Hi' H2 j Hj).
Qed.

Lemma to_Z_of_small (z : Z) : (0 <= z < wB)%Z -> Uint63.to_Z (Uint63.of_Z z) = z.
Proof. intros H. rewrite Uint63.of_Z_spec. apply Z.mod_small, H. Qed.

Lemma of_int_nonneg (z : Z) : (0 <= z)%Z -> JS.of_int z = of_uint63 (Uint63.of_Z z).
Proof. destruct z; [reflexivity|reflexivity|lia]. Qed.

Lemma small_uint_to_int (x : JS.number) (q : int) :
  small_uint x = Some q -> JS.to_int x = Some (Uint63.to_Z q).
Proof.
  unfold small_uint, JS.to_int.
  destruct (is_nan x || is_infinity x); [discriminate|].
  destruct (PrimFloat.is_zero x); [intros [= <-]; reflexivity|].
  destruct (x <? 0); [discriminate|].
  destruct (frshiftexp x) as [f e].
  destruct (JS.frac_bias <=? e)%uint63; [discriminate|].
  destruct (_ =? _)%uint63; [|discriminate].
  intros [= <-]. reflexivity.
Qed.


Lemma between_int_between (lo hi : int) (x : JS.number) :
  between_int lo hi x = true ->
  int_between (Uint63.to_Z lo) (Uint63.to_Z hi) x.
Proof.
  unfold between_int, int_between.
  destruct (small_uint x) as [q|] eqn:E; [|discriminate].
  intros H. apply andb_prop in H. destruct H as [H1 H2].
  apply Uint63.leb_spec in H1. apply Uint63.leb_spec in H2.
  exists (Uint63.to_Z q). split; [apply small_uint_to_int, E|lia].
Qed.

(** ** Round trip RGBA -> HSVA -> RGBA *)



(** The alpha only passes through: the colour channels of a conversion do
    not depend on it. *)
Lemma RGBAtoHSVA_channels (r g b a : JS.number) :
  RGBAtoHSVA (RGBA.mk r g b a) =
  HSVA.mk (HSVA.h (RGBAtoHSVA (RGBA.mk r g b 1))) (HSVA.s (RGBAtoHSVA (RGBA.mk r g b 1)))
          (HSVA.v (RGBAtoHSVA (RGBA.mk r g b 1))) a.
Proof. reflexivity. Qed.

Lemma HSVAtoRGBA_channels (h s v a : JS.number) :
  HSVAtoRGBA (HSVA.mk h s v a) =
  RGBA.mk (RGBA.r (HSVAtoRGBA (HSVA.mk h s v 1))) (RGBA.g (HSVAtoRGBA (HSVA.mk h s v 1)))
          (RGBA.b (HSVAtoRGBA (HSVA.mk h s v 1))) a.
Proof. reflexivity. Qed.









(** The largest difference a round trip makes on a channel is 5; it is
    reached at (0, 89, 254), which comes back as (0, 94, 255). *)
Lemma roundtrip_off_by_5 : roundtrip (rgba_of 0 89 254 1) = rgba_of 0 94 255 1.
Proof. vm_compute. reflexivity. Qed.

(** ** HSVAtoRGBA: sector index and channel ranges *)

Lemma HSVAtoRGBA_r (h s v a : JS.number) :
  RGBA.r (HSVAtoRGBA (HSVA.mk h s v a)) = RGBA.r (HSVAtoRGBA (HSVA.mk h s v 1)).
Proof. rewrite HSVAtoRGBA_channels. reflexivity. Qed.

Lemma HSVAtoRGBA_g (h s v a : JS.number) :
  RGBA.g (HSVAtoRGBA (HSVA.mk h s v a)) = RGBA.g (HSVAtoRGBA (HSVA.mk h s v 1)).
Proof. rewrite HSVAtoRGBA_channels. reflexivity. Qed.

Lemma HSVAtoRGBA_b (h s v a : JS.number) :
  RGBA.b (HSVAtoRGBA (HSVA.mk h s v a)) = RGBA.b (HSVAtoRGBA (HSVA.mk h s v 1)).
Proof. rewrite HSVAtoRGBA_channels. reflexivity. Qed.

Lemma HSVAtoRGBA_a (x : HSVA.t) : RGBA.a (HSVAtoRGBA x) = HSVA.a x.
Proof. reflexivity. Qed.

Lemma lookups_defined_alpha (h s v a : JS.number) :
  lookups_defined (HSVA.mk h s v a) = lookups_defined (HSVA.mk h s v 1).
Proof. reflexivity. Qed.

Lemma HSVAtoRGBA_lookups (x : HSVA.t) :
  HSVAtoRGBA x =
  let '(red, green, blue) := sector_lookups x in
  {| RGBA.r := JS.Math_round (JS.to_number red * 255);
     RGBA.g := JS.Math_round (JS.to_number green * 255);
     RGBA.b := JS.Math_round (JS.to_number blue * 255);
     RGBA.a := HSVA.a x |}.
Proof. reflexivity. Qed.

Lemma hue_check :
  all_int 361 0 (fun h =>
    mem (sector_index (of_uint63 h)) [0; 1; 2; 3; 4; 5]
    && mem (hue_factor (of_uint63 h)) hue_factors) = true.
Proof. vm_cast_no_check (eq_refl true). Qed.

Lemma extreme_check :
  all_int2 101 101 (fun s v =>
    between_int 0 255
      (JS.Math_round ((of_uint63 s / 100 * (of_uint63 v / 100)
                       + (of_uint63 v / 100 - of_uint63 s / 100 * (of_uint63 v / 100))) * 255))
    && between_int 0 255
      (JS.Math_round ((of_uint63 v / 100 - of_uint63 s / 100 * (of_uint63 v / 100)) * 255)))
  = true.
Proof. vm_cast_no_check (eq_refl true). Qed.

Lemma middle_check :
  forallb (fun t =>
    all_int2 101 101 (fun s v =>
      between_int 0 255
        (JS.Math_round ((of_uint63 s / 100 * (of_uint63 v / 100) * t
                         + (of_uint63 v / 100 - of_uint63 s / 100 * (of_uint63 v / 100))) * 255))))
    hue_factors = true.
Proof. vm_cast_no_check (eq_refl true). Qed.


Lemma mem_In (x : JS.number) (l : list JS.number) : mem x l = true -> In x l.
Proof.
  induction l as [|y l IH]; cbn [mem]; [discriminate|].
  destruct (PrimFloat.Leibniz.eqb x y) eqn:E.
  - intros _. left. symmetry. apply FloatAxioms.Leibniz.eqb_spec, E.
  - intros H. right. apply IH, H.
Qed.

Lemma HSVAtoRGBA_sector (h s v a : JS.number) :
  HSVAtoRGBA (HSVA.mk h s v a) =
  {| RGBA.r := JS.Math_round (JS.to_number (JS.array_get
         [s / 100 * (v / 100) + (v / 100 - s / 100 * (v / 100));
          s / 100 * (v / 100) * hue_factor h + (v / 100 - s / 100 * (v / 100));
          v / 100 - s / 100 * (v / 100);
          v / 100 - s / 100 * (v / 100);
          s / 100 * (v / 100) * hue_factor h + (v / 100 - s / 100 * (v / 100));
          s / 100 * (v / 100) + (v / 100 - s / 100 * (v / 100))]
         (sector_index h)) * 255);
     RGBA.g := JS.Math_round (JS.to_number (JS.array_get
         [s / 100 * (v / 100) * hue_factor h + (v / 100 - s / 100 * (v / 100));
          s / 100 * (v / 100) + (v / 100 - s / 100 * (v / 100));
          s / 100 * (v / 100) + (v / 100 - s / 100 * (v / 100));
          s / 100 * (v / 100) * hue_factor h + (v / 100 - s / 100 * (v / 100));
          v / 100 - s / 100 * (v / 100);
          v / 100 - s / 100 * (v / 100)]
         (sector_index h)) * 255);
     RGBA.b := JS.Math_round (JS.to_number (JS.array_get
         [v / 100 - s / 100 * (v / 100);
          v / 100 - s / 100 * (v / 100);
          s / 100 * (v / 100) * hue_factor h + (v / 100 - s / 100 * (v / 100));
          s / 100 * (v / 100) + (v / 100 - s / 100 * (v / 100));
          s / 100 * (v / 100) + (v / 100 - s / 100 * (v / 100));
          s / 100 * (v / 100) * hue_factor h + (v / 100 - s / 100 * (v / 100))]
         (sector_index h)) * 255);
     RGBA.a := a |}.
Proof. reflexivity. Qed.

Lemma sector_lookups_sector (h s v a : JS.number) :
  sector_lookups (HSVA.mk h s v a) =
  (JS.array_get
         [s / 100 * (v / 100) + (v / 100 - s / 100 * (v / 100));
          s / 100 * (v / 100) * hue_factor h + (v / 100 - s / 100 * (v / 100));
          v / 100 - s / 100 * (v / 100);
          v / 100 - s / 100 * (v / 100);
          s / 100 * (v / 100) * hue_factor h + (v / 100 - s / 100 * (v / 100));
          s / 100 * (v / 100) + (v / 100 - s / 100 * (v / 100))]
         (sector_index h),
   JS.array_get
         [s / 100 * (v / 100) * hue_factor h + (v / 100 - s / 100 * (v / 100));
          s / 100 * (v / 100) + (v / 100 - s / 100 * (v / 100));
          s / 100 * (v / 100) + (v / 100 - s / 100 * (v / 100));
          s / 100 * (v / 100) * hue_factor h + (v / 100 - s / 100 * (v / 100));
          v / 100 - s / 100 * (v / 100);
          v / 100 - s / 100 * (v / 100)]
         (sector_index h),
   JS.array_get
         [v / 100 - s / 100 * (v / 100);
          v / 100 - s / 100 * (v / 100);
          s / 100 * (v / 100) * hue_factor h + (v / 100 - s / 100 * (v / 100));
          s / 100 * (v / 100) + (v / 100 - s / 100 * (v / 100));
          s / 100 * (v / 100) + (v / 100 - s / 100 * (v / 100));
          s / 100 * (v / 100) * hue_factor h + (v / 100 - s / 100 * (v / 100))]
         (sector_index h)).
Proof. reflexivity. Qed.

Lemma array_get_6 (x0 x1 x2 x3 x4 x5 : JS.number) :
  JS.array_get [x0; x1; x2; x3; x4; x5] 0 = Some x0
  /\ JS.array_get [x0; x1; x2; x3; x4; x5] 1 = Some x1
  /\ JS.array_get [x0; x1; x2; x3; x4; x5] 2 = Some x2
  /\ JS.array_get [x0; x1; x2; x3; x4; x5] 3 = Some x3
  /\ JS.array_get [x0; x1; x2; x3; x4; x5] 4 = Some x4
  /\ JS.array_get [x0; x1; x2; x3; x4; x5] 5 = Some x5.
Proof. repeat split; reflexivity. Qed.

Lemma sector_values :
  int_between 0 5 0 /\ int_between 0 5 1 /\ int_between 0 5 2
  /\ int_between 0 5 3 /\ int_between 0 5 4 /\ int_between 0 5 5.
Proof.
  repeat split;
    [exists 0%Z|exists 1%Z|exists 2%Z|exists 3%Z|exists 4%Z|exists 5%Z];
    (split; [vm_compute; reflexivity|lia]).
Qed.

(** What the checks say about one point of the grid. *)
Lemma grid_point (h s v : Z) :
  (0 <= h <= 360)%Z -> (0 <= s <= 100)%Z -> (0 <= v <= 100)%Z ->
  In (sector_index (of_uint63 (Uint63.of_Z h))) [0; 1; 2; 3; 4; 5]
  /\ int_between 0 255
       (JS.Math_round
          ((of_uint63 (Uint63.of_Z s) / 100 * (of_uint63 (Uint63.of_Z v) / 100)
            + (of_uint63 (Uint63.of_Z v) / 100
               - of_uint63 (Uint63.of_Z s) / 100 * (of_uint63 (Uint63.of_Z v) / 100))) * 255))
  /\ int_between 0 255
       (JS.Math_round
          ((of_uint63 (Uint63.of_Z s) / 100 * (of_uint63 (Uint63.of_Z v) / 100)
              * hue_factor (of_uint63 (Uint63.of_Z h))
            + (of_uint63 (Uint63.of_Z v) / 100
               - of_uint63 (Uint63.of_Z s) / 100 * (of_uint63 (Uint63.of_Z v) / 100))) * 255))
  /\ int_between 0 255
       (JS.Math_round
          ((of_uint63 (Uint63.of_Z v) / 100
            - of_uint63 (Uint63.of_Z s) / 100 * (of_uint63 (Uint63.of_Z v) / 100)) * 255)).
Proof.
  intros Hh Hs Hv.
  assert (Hn : (Z.of_nat 361 <= 1024)%Z) by (change (Z.of_nat 361) with 361%Z; lia).
  assert (Hm : (Z.of_nat 101 <= 1024)%Z) by (change (Z.of_nat 101) with 101%Z; lia).
  assert (Hh' : (0 <= h < Z.of_nat 361)%Z) by (change (Z.of_nat 361) with 361%Z; lia).
  assert (Hs' : (0 <= s < Z.of_nat 101)%Z) by (change (Z.of_nat 101) with 101%Z; lia).
  assert (Hv' : (0 <= v < Z.of_nat 101)%Z) by (change (Z.of_nat 101) with 101%Z; lia).
  pose proof (all_int_from_0 _ _ hue_check Hn h Hh') as Hhue. cbv beta in Hhue.
  apply andb_prop in Hhue. destruct Hhue as [Hidx Hfac].
  apply mem_In in Hidx. apply mem_In in Hfac.
  pose proof (all_int2_spec _ _ _ extreme_check Hm Hm s v Hs' Hv') as Hext.
  cbv beta in Hext. apply andb_prop in Hext. destruct Hext as [Hhi Hlo].
  pose proof (proj1 (forallb_forall _ _) middle_check _ Hfac) as Hmid.
  cbv beta in Hmid.
  pose proof (all_int2_spec _ _ _ Hmid Hm Hm s v Hs' Hv') as Hmid'. cbv beta in Hmid'.
  apply between_int_between in Hhi, Hlo, Hmid'.
  change (Uint63.to_Z 0) with 0%Z in Hhi, Hlo, Hmid'.
  change (Uint63.to_Z 255) with 255%Z in Hhi, Hlo, Hmid'.
  repeat split; assumption.
Qed.


(** C10.  For every HSVA record with integer h in [0,360] and integer s, v
    in [0,100], the sector index floor(h/60) mod 6 is an integer in
    {0,...,5}, the three table lookups of HSVAtoRGBA are all defined, the
    returned r, g, b are integers in [0,255], and the alpha is returned
    unchanged. *)
Theorem HSVAtoRGBA_in_range (h s v : Z) (a : JS.number) :
  (0 <= h <= 360)%Z -> (0 <= s <= 100)%Z -> (0 <= v <= 100)%Z ->
  int_between 0 5 (sector_index (JS.of_int h))
  /\ lookups_defined (hsva_of h s v a) = true
  /\ HSVAtoRGBA (hsva_of h s v a) =
       (let '(red, green, blue) := sector_lookups (hsva_of h s v a) in
        {| RGBA.r := JS.Math_round (JS.to_number red * 255);
           RGBA.g := JS.Math_round (JS.to_number green * 255);
           RGBA.b := JS.Math_round (JS.to_number blue * 255);
           RGBA.a := HSVA.a (hsva_of h s v a) |})
  /\ int_between 0 255 (RGBA.r (HSVAtoRGBA (hsva_of h s v a)))
  /\ int_between 0 255 (RGBA.g (HSVAtoRGBA (hsva_of h s v a)))
  /\ int_between 0 255 (RGBA.b (HSVAtoRGBA (hsva_of h s v a)))
  /\ RGBA.a (HSVAtoRGBA (hsva_of h s v a)) = a.
Proof.
  intros Hh Hs Hv.
  destruct (grid_point h s v Hh Hs Hv) as (Hidx & Hhi & Hmid & Hlo).
  destruct sector_values as (S0 & S1 & S2 & S3 & S4 & S5).
  split; [|split; [|split; [apply HSVAtoRGBA_lookups|]]].
  - rewrite of_int_nonneg by lia.
    cbn [In] in Hidx.
    destruct Hidx as [Hk|[Hk|[Hk|[Hk|[Hk|[Hk|[]]]]]]]; rewrite <- Hk; assumption.
  - unfold hsva_of, lookups_defined. rewrite !of_int_nonneg by lia.
    rewrite sector_lookups_sector.
    cbn [In] in Hidx.
    destruct Hidx as [Hk|[Hk|[Hk|[Hk|[Hk|[Hk|[]]]]]]];
      rewrite <- Hk;
      repeat match goal with
             | |- context [JS.array_get [?x0; ?x1; ?x2; ?x3; ?x4; ?x5] _] =>
                 destruct (array_get_6 x0 x1 x2 x3 x4 x5) as (E0 & E1 & E2 & E3 & E4 & E5);
                 first [rewrite E0|rewrite E1|rewrite E2|rewrite E3|rewrite E4|rewrite E5];
                 clear E0 E1 E2 E3 E4 E5
             end; reflexivity.
  - unfold hsva_of. rewrite !of_int_nonneg by lia.
    rewrite HSVAtoRGBA_sector. cbn [RGBA.r RGBA.g RGBA.b RGBA.a].
    cbn [In] in Hidx.
    destruct Hidx as [Hk|[Hk|[Hk|[Hk|[Hk|[Hk|[]]]]]]];
      rewrite <- Hk;
      repeat match goal with
             | |- context [JS.array_get [?x0; ?x1; ?x2; ?x3; ?x4; ?x5] _] =>
                 destruct (array_get_6 x0 x1 x2 x3 x4 x5) as (E0 & E1 & E2 & E3 & E4 & E5);
                 first [rewrite E0|rewrite E1|rewrite E2|rewrite E3|rewrite E4|rewrite E5];
                 clear E0 E1 E2 E3 E4 E5
             end;
      cbn [JS.to_number]; repeat split; assumption.
Qed.

Lemma HSVAtoRGBA_in_range_witness :
  (0 <= 218 <= 360)%Z /\ (0 <= 100 <= 100)%Z /\ (0 <= 100 <= 100)%Z
  /\ int_between 0 255 (RGBA.g (HSVAtoRGBA (hsva_of 218 100 100 1))).
Proof.
  split; [lia|]. split; [lia|]. split; [lia|].
  apply (HSVAtoRGBA_in_range 218 100 100 1); lia.
Defined.

(** ** RGBAtoHSVA against its description *)

Lemma channel_single_check :
  all_int 256 0 (fun i =>
    negb (is_nan (of_uint63 i / 255)) && negb (JS.is_neg_zero (of_uint63 i / 255))
    && (neg_infinity <? of_uint63 i / 255) && (of_uint63 i / 255 <? infinity)
    && (of_uint63 i / 255 =? of_uint63 i / 255)
    && negb (of_uint63 i / 255 <? of_uint63 i / 255)) = true.
Proof. vm_cast_no_check (eq_refl true). Qed.

Lemma channel_order_check :
  all_int2 256 256 (fun i j =>
    if (i <? j)%uint63 then
      (of_uint63 i / 255 <? of_uint63 j / 255)
      && negb (of_uint63 j / 255 <? of_uint63 i / 255)
      && negb (of_uint63 i / 255 =? of_uint63 j / 255)
      && negb (of_uint63 j / 255 =? of_uint63 i / 255)
      && JS.truthy (of_uint63 j / 255 - of_uint63 i / 255)
      && negb (of_uint63 j / 255 - of_uint63 i / 255 =? 0)
      && JS.truthy (of_uint63 j / 255)
      && negb (of_uint63 j / 255 =? 0)
    else true) = true.
Proof. vm_cast_no_check (eq_refl true). Qed.

Lemma channel_tie_check :
  all_int2 256 256 (fun i j =>
    hsv_same (RGBAtoHSVA (RGBA.mk (of_uint63 i) (of_uint63 i) (of_uint63 j) 1))
             (RGBAtoHSVA_spec (RGBA.mk (of_uint63 i) (of_uint63 i) (of_uint63 j) 1))
    && hsv_same (RGBAtoHSVA (RGBA.mk (of_uint63 i) (of_uint63 j) (of_uint63 i) 1))
                (RGBAtoHSVA_spec (RGBA.mk (of_uint63 i) (of_uint63 j) (of_uint63 i) 1))
    && hsv_same (RGBAtoHSVA (RGBA.mk (of_uint63 j) (of_uint63 i) (of_uint63 i) 1))
                (RGBAtoHSVA_spec (RGBA.mk (of_uint63 j) (of_uint63 i) (of_uint63 i) 1)))
  = true.
Proof. vm_cast_no_check (eq_refl true). Qed.

Lemma max_loop_first (x : JS.number) (rest : list JS.number) :
  is_nan x = false -> (neg_infinity <? x) = true ->
  JS.max_loop neg_infinity (x :: rest) = JS.max_loop x rest.
Proof.
  intros Hn Hlt. cbn [JS.max_loop]. rewrite Hn.
  change (JS.is_neg_zero neg_infinity) with false.
  destruct (JS.is_pos_zero x); rewrite Hlt; reflexivity.
Qed.

Lemma max_loop_next (hi x : JS.number) (rest : list JS.number) :
  is_nan x = false -> JS.is_neg_zero hi = false ->
  JS.max_loop hi (x :: rest) = JS.max_loop (if hi <? x then x else hi) rest.
Proof.
  intros Hn Hz. cbn [JS.max_loop]. rewrite Hn, Hz.
  destruct (JS.is_pos_zero x); reflexivity.
Qed.

Lemma min_loop_first (x : JS.number) (rest : list JS.number) :
  is_nan x = false -> (x <? infinity) = true ->
  JS.min_loop infinity (x :: rest) = JS.min_loop x rest.
Proof.
  intros Hn Hlt. cbn [JS.min_loop]. rewrite Hn.
  change (JS.is_pos_zero infinity) with false.
  destruct (JS.is_neg_zero x); rewrite Hlt; reflexivity.
Qed.

Lemma min_loop_next (lo x : JS.number) (rest : list JS.number) :
  is_nan x = false -> JS.is_neg_zero x = false ->
  JS.min_loop lo (x :: rest) = JS.min_loop (if x <? lo then x else lo) rest.
Proof.
  intros Hn Hz. cbn [JS.min_loop]. rewrite Hn, Hz. reflexivity.
Qed.

Lemma Math_max3 (x y z : JS.number) :
  plain x -> plain y -> plain z ->
  JS.Math_max [x; y; z] =
  if (if x <? y then y else x) <? z then z else (if x <? y then y else x).
Proof.
  intros (Hx1 & Hx2 & Hx3 & _) (Hy1 & Hy2 & _) (Hz1 & _).
  unfold JS.Math_max. rewrite max_loop_first by assumption.
  rewrite max_loop_next by assumption.
  rewrite max_loop_next; [reflexivity|assumption|].
  destruct (x <? y); assumption.
Qed.

Lemma Math_min3 (x y z : JS.number) :
  plain x -> plain y -> plain z ->
  JS.Math_min [x; y; z] =
  if z <? (if y <? x then y else x) then z else (if y <? x then y else x).
Proof.
  intros (Hx1 & Hx2 & _ & Hx4) (Hy1 & Hy2 & _) (Hz1 & Hz2 & _).
  unfold JS.Math_min. rewrite min_loop_first by assumption.
  rewrite min_loop_next by assumption.
  rewrite min_loop_next by assumption. reflexivity.
Qed.

Lemma channel_plain (z : Z) :
  (0 <= z <= 255)%Z ->
  plain (of_uint63 (Uint63.of_Z z) / 255)
  /\ (of_uint63 (Uint63.of_Z z) / 255 =? of_uint63 (Uint63.of_Z z) / 255) = true
  /\ (of_uint63 (Uint63.of_Z z) / 255 <? of_uint63 (Uint63.of_Z z) / 255) = false.
Proof.
  intros Hz.
  assert (Hn : (Z.of_nat 256 <= 1024)%Z) by (change (Z.of_nat 256) with 256%Z; lia).
  assert (Hz' : (0 <= z < Z.of_nat 256)%Z) by (change (Z.of_nat 256) with 256%Z; lia).
  pose proof (all_int_from_0 _ _ channel_single_check Hn z Hz') as H. cbv beta in H.
  repeat (apply andb_prop in H; let H' := fresh "F" in destruct H as [H H']).
  unfold plain. rewrite negb_true_iff in *.
  repeat split; assumption.
Qed.

Lemma channel_ordered (i j : Z) :
  (0 <= i < j)%Z -> (j <= 255)%Z ->
  ordered (of_uint63 (Uint63.of_Z i) / 255) (of_uint63 (Uint63.of_Z j) / 255).
Proof.
  intros Hi Hj.
  assert (Hw : (256 < wB)%Z) by reflexivity.
  assert (Hn : (Z.of_nat 256 <= 1024)%Z) by (change (Z.of_nat 256) with 256%Z; lia).
  assert (Hi' : (0 <= i < Z.of_nat 256)%Z) by (change (Z.of_nat 256) with 256%Z; lia).
  assert (Hj' : (0 <= j < Z.of_nat 256)%Z) by (change (Z.of_nat 256) with 256%Z; lia).
  pose proof (all_int2_spec _ _ _ channel_order_check Hn Hn i j Hi' Hj') as H.
  cbv beta in H.
  assert (Hlt : (Uint63.of_Z i <? Uint63.of_Z j)%uint63 = true).
  { apply Uint63.ltb_spec. rewrite !to_Z_of_small by lia. lia. }
  rewrite Hlt in H.
  repeat (apply andb_prop in H; let H' := fresh "F" in destruct H as [H H']).
  unfold ordered. rewrite negb_true_iff in *.
  repeat split; assumption.
Qed.

Lemma hsv_by_max (r g b a lo hi : JS.number) :
  JS.Math_max [r / 255; g / 255; b / 255] = hi ->
  JS.Math_min [r / 255; g / 255; b / 255] = lo ->
  JS.truthy (hi - lo) = true -> (hi - lo =? 0) = false ->
  JS.truthy hi = true -> (hi =? 0) = false ->
  ((hi =? r / 255) = true /\ (hi =? g / 255) = false /\ (hi =? b / 255) = false)
  \/ ((hi =? r / 255) = false /\ (hi =? g / 255) = true /\ (hi =? b / 255) = false)
  \/ ((hi =? r / 255) = false /\ (hi =? g / 255) = false /\ (hi =? b / 255) = true) ->
  RGBAtoHSVA (RGBA.mk r g b a) = RGBAtoHSVA_spec (RGBA.mk r g b a).
Proof.
  intros Hmax Hmin Ht Hz Hth Hzh Hsel.
  unfold RGBAtoHSVA, RGBAtoHSVA_spec. cbn [RGBA.r RGBA.g RGBA.b RGBA.a]. cbv zeta.
  rewrite Hmax, Hmin, Ht, Hz, Hth, Hzh.
  destruct Hsel as [(H1 & H2 & H3)|[(H1 & H2 & H3)|(H1 & H2 & H3)]];
    rewrite H1, H2, H3; reflexivity.
Qed.

Lemma RGBAtoHSVA_spec_channels (r g b a : JS.number) :
  RGBAtoHSVA_spec (RGBA.mk r g b a) =
  HSVA.mk (HSVA.h (RGBAtoHSVA_spec (RGBA.mk r g b 1)))
          (HSVA.s (RGBAtoHSVA_spec (RGBA.mk r g b 1)))
          (HSVA.v (RGBAtoHSVA_spec (RGBA.mk r g b 1))) a.
Proof. reflexivity. Qed.

Lemma hsv_same_eq (r g b a : JS.number) :
  hsv_same (RGBAtoHSVA (RGBA.mk r g b 1)) (RGBAtoHSVA_spec (RGBA.mk r g b 1)) = true ->
  RGBAtoHSVA (RGBA.mk r g b a) = RGBAtoHSVA_spec (RGBA.mk r g b a).
Proof.
  intros H. unfold hsv_same in H.
  apply andb_prop in H. destruct H as [H Hv]. apply andb_prop in H. destruct H as [Hh Hs].
  apply FloatAxioms.Leibniz.eqb_spec in Hh, Hs, Hv.
  rewrite RGBAtoHSVA_channels, RGBAtoHSVA_spec_channels, Hh, Hs, Hv. reflexivity.
Qed.

Ltac use_order :=
  repeat match goal with
         | H : ordered _ _ |- _ =>
             destruct H as (? & ? & ? & ? & ? & ? & ? & ?)
         | H : plain _ /\ _ |- _ => destruct H as (? & ? & ?)
         end.

Ltac settle_extremum :=
  repeat match goal with
         | H : (?a <? ?b) = _ |- context [?a <? ?b] => rewrite H; cbv iota
         end;
  reflexivity.

Ltac by_max lo hi :=
  apply (hsv_by_max _ _ _ _ lo hi);
  [ rewrite Math_max3 by assumption; settle_extremum
  | rewrite Math_min3 by assumption; settle_extremum
  | assumption | assumption | assumption | assumption
  | first [ left; repeat split; assumption
          | right; left; repeat split; assumption
          | right; right; repeat split; assumption ] ].

Lemma tie_cases (i j : Z) (a : JS.number) :
  (0 <= i <= 255)%Z -> (0 <= j <= 255)%Z ->
  RGBAtoHSVA (rgba_of i i j a) = RGBAtoHSVA_spec (rgba_of i i j a)
  /\ RGBAtoHSVA (rgba_of i j i a) = RGBAtoHSVA_spec (rgba_of i j i a)
  /\ RGBAtoHSVA (rgba_of j i i a) = RGBAtoHSVA_spec (rgba_of j i i a).
Proof.
  intros Hi Hj.
  assert (Hn : (Z.of_nat 256 <= 1024)%Z) by (change (Z.of_nat 256) with 256%Z; lia).
  assert (Hi' : (0 <= i < Z.of_nat 256)%Z) by (change (Z.of_nat 256) with 256%Z; lia).
  assert (Hj' : (0 <= j < Z.of_nat 256)%Z) by (change (Z.of_nat 256) with 256%Z; lia).
  pose proof (all_int2_spec _ _ _ channel_tie_check Hn Hn i j Hi' Hj') as H.
  cbv beta in H.
  apply andb_prop in H. destruct H as [H H3]. apply andb_prop in H. destruct H as [H1 H2].
  unfold rgba_of. rewrite !of_int_nonneg by lia.
  split; [|split]; apply hsv_same_eq; assumption.
Qed.

(** C2.  On every RGBA record with integer r, g, b in [0,255], RGBAtoHSVA
    computes what the specification describes ([RGBAtoHSVA_spec]): the hue
    piecewise by the maximal channel, scaled by 60, floored and wrapped by
    +360 when negative, 0 when the chroma is 0; the saturation chroma/max (0
    when max is 0) and the value max, both rounded to a percentage; the alpha
    unchanged.  And {0,0,0,1} maps to {h:0,s:0,v:0,a:1}, {255,255,255,1} to
    {h:0,s:0,v:100,a:1}. *)
Theorem RGBAtoHSVA_piecewise (r g b : Z) (a : JS.number) :
  (0 <= r <= 255)%Z -> (0 <= g <= 255)%Z -> (0 <= b <= 255)%Z ->
  RGBAtoHSVA (rgba_of r g b a) = RGBAtoHSVA_spec (rgba_of r g b a)
  /\ RGBAtoHSVA (rgba_of 0 0 0 1) = hsva_of 0 0 0 1
  /\ RGBAtoHSVA (rgba_of 255 255 255 1) = hsva_of 0 0 100 1.
Proof.
  intros Hr Hg Hb. split; [|split; vm_compute; reflexivity].
  destruct (Z.eq_dec r g) as [->|Hrg]; [apply (tie_cases g b a); assumption|].
  destruct (Z.eq_dec r b) as [->|Hrb]; [apply (tie_cases b g a); assumption|].
  destruct (Z.eq_dec g b) as [->|Hgb]; [apply (tie_cases b r a); assumption|].
  pose proof (channel_plain r Hr) as Pr.
  pose proof (channel_plain g Hg) as Pg.
  pose proof (channel_plain b Hb) as Pb.
  unfold rgba_of. rewrite !of_int_nonneg by lia.
  destruct Pr as (Pr & Er & Ir), Pg as (Pg & Eg & Ig), Pb as (Pb & Eb & Ib).
  pose proof (channel_ordered r g) as Org. pose proof (channel_ordered g r) as Ogr.
  pose proof (channel_ordered g b) as Ogb. pose proof (channel_ordered b g) as Obg.
  pose proof (channel_ordered r b) as Orb. pose proof (channel_ordered b r) as Obr.
  remember (of_uint63 (Uint63.of_Z r)) as x eqn:Ex.
  remember (of_uint63 (Uint63.of_Z g)) as y eqn:Ey.
  remember (of_uint63 (Uint63.of_Z b)) as z eqn:Ez.
  clear Ex Ey Ez.
  destruct (Z.lt_ge_cases r g) as [Lrg|Lrg], (Z.lt_ge_cases g b) as [Lgb|Lgb],
           (Z.lt_ge_cases r b) as [Lrb|Lrb]; try lia.
  - (* r < g < b *)
    specialize (Org ltac:(lia) ltac:(lia)). specialize (Ogb ltac:(lia) ltac:(lia)).
    specialize (Orb ltac:(lia) ltac:(lia)).
    clear - Pr Pg Pb Er Eg Eb Org Ogb Orb.
    use_order. by_max (x / 255) (z / 255).
  - (* r < g, b < g, r < b *)
    specialize (Org ltac:(lia) ltac:(lia)). specialize (Obg ltac:(lia) ltac:(lia)).
    specialize (Orb ltac:(lia) ltac:(lia)).
    clear - Pr Pg Pb Er Eg Eb Org Obg Orb.
    use_order. by_max (x / 255) (y / 255).
  - (* b <= r < g *)
    specialize (Org ltac:(lia) ltac:(lia)). specialize (Obg ltac:(lia) ltac:(lia)).
    specialize (Obr ltac:(lia) ltac:(lia)).
    clear - Pr Pg Pb Er Eg Eb Org Obg Obr.
    use_order. by_max (z / 255) (y / 255).
  - (* g < r, g < b, r < b *)
    specialize (Ogr ltac:(lia) ltac:(lia)). specialize (Ogb ltac:(lia) ltac:(lia)).
    specialize (Orb ltac:(lia) ltac:(lia)).
    clear - Pr Pg Pb Er Eg Eb Ogr Ogb Orb.
    use_order. by_max (y / 255) (z / 255).
  - (* g < b < r *)
    specialize (Ogr ltac:(lia) ltac:(lia)). specialize (Ogb ltac:(lia) ltac:(lia)).
    specialize (Obr ltac:(lia) ltac:(lia)).
    clear - Pr Pg Pb Er Eg Eb Ogr Ogb Obr.
    use_order. by_max (y / 255) (x / 255).
  - (* b < g < r *)
    specialize (Ogr ltac:(lia) ltac:(lia)). specialize (Obg ltac:(lia) ltac:(lia)).
    specialize (Obr ltac:(lia) ltac:(lia)).
    clear - Pr Pg Pb Er Eg Eb Ogr Obg Obr.
    use_order. by_max (z / 255) (x / 255).
Qed.

Lemma RGBAtoHSVA_piecewise_witness :
  (0 <= 255 <= 255)%Z /\ (0 <= 200 <= 255)%Z /\ (0 <= 100 <= 255)%Z
  /\ RGBAtoHSVA (rgba_of 255 200 100 1) = RGBAtoHSVA_spec (rgba_of 255 200 100 1).
Proof.
  split; [lia|]. split; [lia|]. split; [lia|].
  apply (RGBAtoHSVA_piecewise 255 200 100 1); lia.
Defined.

(** C3.  For every saturation s, value v and alpha a, HSVAtoRGBA of
    {h:360, s, v, a} is exactly HSVAtoRGBA of {h:0, s, v, a}; the hue 0 has
    sector index 0, and the hue 360 has floor(360/60) = 6, which the
    reduction mod 6 brings to sector 0. *)
Theorem hue_360_is_hue_0 (s v a : JS.number) :
  HSVAtoRGBA (HSVA.mk 360 s v a) = HSVAtoRGBA (HSVA.mk 0 s v a)
  /\ sector_index 0 = 0
  /\ JS.Math_floor (360 / 60) = 6
  /\ sector_index 360 = 0.
Proof.
  split; [reflexivity|]. split; [reflexivity|]. split; reflexivity.
Qed.

(** ** HSVAtoHSLA *)

Lemma or_else_not_nan (v : option JS.number) : is_nan (JS.or_else v 0) = false.
Proof.
  destruct v as [x|]; [|reflexivity].
  unfold JS.or_else, JS.truthy.
  destruct (is_nan x) eqn:Hn.
  - rewrite orb_true_r. reflexivity.
  - rewrite orb_false_r. destruct (PrimFloat.is_zero x); [reflexivity|exact Hn].
Qed.

(** C5.  In HSVAtoHSLA the lightness is v*(1-s/2) over the normalised s and
    v (rounded to a percentage on return); the saturation
    (v-l)/min(l,1-l) is computed only when 0 < l < 1 and is 0 otherwise; the
    returned saturation is never NaN, whatever the input; and
    {h:0,s:50,v:0,a:1} gives saturation 0. *)
Theorem HSVAtoHSLA_guarded (x : HSVA.t) :
  let value := HSVA.v x / 100 in
  let lightness := value * (1 - (HSVA.s x / 100) / 2) in
  let computed :=
    JS.Math_round ((value - lightness) / JS.Math_min [lightness; 1 - lightness] * 100) in
  HSLA.l (HSVAtoHSLA x) = JS.Math_round (lightness * 100)
  /\ HSLA.s (HSVAtoHSLA x) =
       (if (0 <? lightness) && (lightness <? 1)
        then (if JS.truthy computed then computed else 0)
        else 0)
  /\ is_nan (HSLA.s (HSVAtoHSLA x)) = false
  /\ HSLA.h (HSVAtoHSLA x) = HSVA.h x /\ HSLA.a (HSVAtoHSLA x) = HSVA.a x
  /\ HSVAtoHSLA (hsva_of 0 50 0 1) = HSLA.mk 0 0 0 1.
Proof.
  cbv zeta. split; [reflexivity|]. split.
  - unfold HSVAtoHSLA. cbn [HSLA.s].
    destruct ((0 <? _) && (_ <? 1)); reflexivity.
  - split; [apply or_else_not_nan|]. split; [reflexivity|]. split; reflexivity.
Qed.

(** * The numeric conversions at the edges of their domain *)

(** ** HSVAtoRGBA without value, without saturation, with a negative hue *)

Lemma zero_value_check :
  all_int2 361 101 (fun h s =>
    PrimFloat.Leibniz.eqb
      (RGBA.r (HSVAtoRGBA (HSVA.mk (of_uint63 h) (of_uint63 s) 0 1))) 0
    && PrimFloat.Leibniz.eqb
         (RGBA.g (HSVAtoRGBA (HSVA.mk (of_uint63 h) (of_uint63 s) 0 1))) 0
    && PrimFloat.Leibniz.eqb
         (RGBA.b (HSVAtoRGBA (HSVA.mk (of_uint63 h) (of_uint63 s) 0 1))) 0) = true.
Proof. vm_cast_no_check (eq_refl true). Qed.

Lemma zero_saturation_check :
  all_int2 361 101 (fun h v =>
    PrimFloat.Leibniz.eqb
      (RGBA.r (HSVAtoRGBA (HSVA.mk (of_uint63 h) 0 (of_uint63 v) 1)))
      (JS.Math_round (of_uint63 v / 100 * 255))
    && PrimFloat.Leibniz.eqb
         (RGBA.g (HSVAtoRGBA (HSVA.mk (of_uint63 h) 0 (of_uint63 v) 1)))
         (JS.Math_round (of_uint63 v / 100 * 255))
    && PrimFloat.Leibniz.eqb
         (RGBA.b (HSVAtoRGBA (HSVA.mk (of_uint63 h) 0 (of_uint63 v) 1)))
         (JS.Math_round (of_uint63 v / 100 * 255))) = true.
Proof. vm_cast_no_check (eq_refl true). Qed.

Lemma grid_sizes : (Z.of_nat 361 <= 1024)%Z /\ (Z.of_nat 101 <= 1024)%Z /\ (Z.of_nat 256 <= 1024)%Z.
Proof. cbn. lia. Qed.

(** X20.  A colour without value is black: for an integer hue from 0 to
    360 and an integer saturation from 0 to 100, HSVAtoRGBA of value 0 gives
    r = g = b = 0 and the alpha it was given. *)
Theorem HSVAtoRGBA_zero_value (h s : Z) (a : JS.number) :
  (0 <= h <= 360)%Z -> (0 <= s <= 100)%Z ->
  HSVAtoRGBA (hsva_of h s 0 a) = RGBA.mk 0 0 0 a.
Proof.
  intros Hh Hs. destruct grid_sizes as [N1 [N2 _]].
  pose proof (all_int2_spec _ _ _ zero_value_check N1 N2 h s
                ltac:(cbn; lia) ltac:(cbn; lia)) as E.
  cbv beta in E. apply andb_prop in E. destruct E as [E Eb].
  apply andb_prop in E. destruct E as [Er Eg].
  apply FloatAxioms.Leibniz.eqb_spec in Er, Eg, Eb.
  unfold hsva_of. rewrite !of_int_nonneg by lia.
  change (of_uint63 (Uint63.of_Z 0)) with 0.
  rewrite HSVAtoRGBA_channels, Er, Eg, Eb. reflexivity.
Qed.

Lemma HSVAtoRGBA_zero_value_witness : HSVAtoRGBA (hsva_of 218 75 0 1) = RGBA.mk 0 0 0 1.
Proof. exact (HSVAtoRGBA_zero_value 218 75 1 ltac:(lia) ltac:(lia)). Defined.

(** X21.  A colour without saturation is a gray, whatever its hue: for an
    integer hue from 0 to 360 and an integer value v from 0 to 100,
    HSVAtoRGBA of saturation 0 gives r = g = b = round(v/100 * 255). *)
Theorem HSVAtoRGBA_zero_saturation (h v : Z) (a : JS.number) :
  (0 <= h <= 360)%Z -> (0 <= v <= 100)%Z ->
  HSVAtoRGBA (hsva_of h 0 v a) =
  RGBA.mk (JS.Math_round (JS.of_int v / 100 * 255)) (JS.Math_round (JS.of_int v / 100 * 255))
          (JS.Math_round (JS.of_int v / 100 * 255)) a.
Proof.
  intros Hh Hv. destruct grid_sizes as [N1 [N2 _]].
  pose proof (all_int2_spec _ _ _ zero_saturation_check N1 N2 h v
                ltac:(cbn; lia) ltac:(cbn; lia)) as E.
  cbv beta in E. apply andb_prop in E. destruct E as [E Eb].
  apply andb_prop in E. destruct E as [Er Eg].
  apply FloatAxioms.Leibniz.eqb_spec in Er, Eg, Eb.
  unfold hsva_of. rewrite !of_int_nonneg by lia.
  change (of_uint63 (Uint63.of_Z 0)) with 0.
  rewrite HSVAtoRGBA_channels, Er, Eg, Eb. reflexivity.
Qed.

Lemma HSVAtoRGBA_zero_saturation_witness :
  HSVAtoRGBA (hsva_of 218 0 50 1) = RGBA.mk 128 128 128 1.
Proof. exact (HSVAtoRGBA_zero_saturation 218 50 1 ltac:(lia) ltac:(lia)). Defined.

Lemma negative_hue_check :
  all_int 300 1 (fun h =>
    mem (sector_index (- of_uint63 h)) [-1; -2; -3; -4; -5]) = true.
Proof. vm_cast_no_check (eq_refl true). Qed.

Lemma wide_hue_check :
  all_int 1024 0 (fun h => mem (sector_index (of_uint63 h)) [0; 1; 2; 3; 4; 5]) = true.
Proof. vm_cast_no_check (eq_refl true). Qed.

Lemma array_get_before (x0 x1 x2 x3 x4 x5 : JS.number) (i : JS.number) :
  In i [-1; -2; -3; -4; -5] -> JS.array_get [x0; x1; x2; x3; x4; x5] i = None.
Proof.
  cbn [In]. intros [H|[H|[H|[H|[H|[]]]]]]; rewrite <- H; reflexivity.
Qed.

Lemma array_get_within (x0 x1 x2 x3 x4 x5 : JS.number) (i : JS.number) :
  In i [0; 1; 2; 3; 4; 5] ->
  is_some (JS.array_get [x0; x1; x2; x3; x4; x5] i) = true.
Proof.
  cbn [In]. intros [H|[H|[H|[H|[H|[H|[]]]]]]]; rewrite <- H; reflexivity.
Qed.

(** X22.  HSVAtoRGBA wraps a hue past 360 but not a negative one: for an
    integer hue from 0 to 1023 the sector index is one of 0, ..., 5 and the
    three table lookups are defined; for an integer hue from -300 to -1 the
    index is negative, the lookups are undefined, and r, g and b are NaN,
    whatever the saturation and the value. *)
Theorem HSVAtoRGBA_hue_wrap (h : Z) (s v a : JS.number) :
  ((0 <= h <= 1023)%Z ->
     In (sector_index (JS.of_int h)) [0; 1; 2; 3; 4; 5] /\
     lookups_defined (HSVA.mk (JS.of_int h) s v a) = true) /\
  ((-300 <= h <= -1)%Z ->
     In (sector_index (JS.of_int h)) [-1; -2; -3; -4; -5] /\
     lookups_defined (HSVA.mk (JS.of_int h) s v a) = false /\
     is_nan (RGBA.r (HSVAtoRGBA (HSVA.mk (JS.of_int h) s v a))) = true /\
     is_nan (RGBA.g (HSVAtoRGBA (HSVA.mk (JS.of_int h) s v a))) = true /\
     is_nan (RGBA.b (HSVAtoRGBA (HSVA.mk (JS.of_int h) s v a))) = true).
Proof.
  split.
  - intros Hh. rewrite of_int_nonneg by lia.
    pose proof (all_int_from_0 1024 _ wide_hue_check ltac:(cbn; lia) h ltac:(cbn; lia)) as E.
    cbv beta in E. apply mem_In in E. split; [exact E|].
    unfold lookups_defined. rewrite sector_lookups_sector.
    rewrite !array_get_within by exact E. reflexivity.
  - intros Hh. destruct h as [|p|p]; try lia.
    assert (Hw : (1024 < wB)%Z) by reflexivity.
    pose proof (all_int_spec 300 1 _ negative_hue_check) as E.
    change (Uint63.to_Z 1) with 1%Z in E.
    specialize (E ltac:(cbn; lia) (Zpos p) ltac:(cbn; lia)). cbv beta in E.
    apply mem_In in E.
    change (JS.of_int (Z.neg p)) with (- of_uint63 (Uint63.of_pos p)).
    change (Uint63.of_Z (Z.pos p)) with (Uint63.of_pos p) in E.
    split; [exact E|].
    unfold lookups_defined. rewrite sector_lookups_sector, HSVAtoRGBA_sector.
    cbn [RGBA.r RGBA.g RGBA.b].
    rewrite !array_get_before by exact E. repeat split.
Qed.

Lemma HSVAtoRGBA_hue_wrap_witness :
  is_nan (RGBA.r (HSVAtoRGBA (HSVA.mk (JS.of_int (-30)) 50 50 1))) = true.
Proof.
  exact (proj1 (proj2 (proj2 (proj2 (HSVAtoRGBA_hue_wrap (-30) 50 50 1) ltac:(lia))))).
Defined.

(** ** RGBAtoHSVA on grays, and the range of its saturation and value *)

Lemma gray_hsv_check :
  all_int 256 0 (fun k =>
    PrimFloat.Leibniz.eqb
      (HSVA.h (RGBAtoHSVA (RGBA.mk (of_uint63 k) (of_uint63 k) (of_uint63 k) 1))) 0
    && PrimFloat.Leibniz.eqb
         (HSVA.s (RGBAtoHSVA (RGBA.mk (of_uint63 k) (of_uint63 k) (of_uint63 k) 1))) 0
    && PrimFloat.Leibniz.eqb
         (HSVA.v (RGBAtoHSVA (RGBA.mk (of_uint63 k) (of_uint63 k) (of_uint63 k) 1)))
         (JS.Math_round (of_uint63 k / 255 * 100))
    && between_int 0 100 (JS.Math_round (of_uint63 k / 255 * 100))) = true.
Proof. vm_cast_no_check (eq_refl true). Qed.

(** X23.  A gray has no hue and no saturation: for an integer k from 0 to
    255, RGBAtoHSVA of r = g = b = k gives h = 0, s = 0 and
    v = round(k/255 * 100), an integer from 0 to 100; black included, where
    the division of the chroma by the value is not made. *)
Theorem RGBAtoHSVA_gray (k : Z) (a : JS.number) :
  (0 <= k <= 255)%Z ->
  RGBAtoHSVA (rgba_of k k k a) = HSVA.mk 0 0 (JS.Math_round (JS.of_int k / 255 * 100)) a
  /\ int_between 0 100 (JS.Math_round (JS.of_int k / 255 * 100)).
Proof.
  intros Hk. destruct grid_sizes as [_ [_ N3]].
  pose proof (all_int_from_0 256 _ gray_hsv_check N3 k ltac:(cbn; lia)) as E.
  cbv beta in E. apply andb_prop in E. destruct E as [E Er].
  apply andb_prop in E. destruct E as [E Ev].
  apply andb_prop in E. destruct E as [Eh Es].
  apply FloatAxioms.Leibniz.eqb_spec in Eh, Es, Ev.
  apply between_int_between in Er.
  unfold rgba_of. rewrite !of_int_nonneg by lia. split.
  - rewrite RGBAtoHSVA_channels, Eh, Es, Ev. reflexivity.
  - exact Er.
Qed.

Lemma RGBAtoHSVA_gray_witness : RGBAtoHSVA (rgba_of 128 128 128 1) = HSVA.mk 0 0 50 1.
Proof. exact (proj1 (RGBAtoHSVA_gray 128 1 ltac:(lia))). Defined.

Lemma channel_ltb (i j : Z) :
  (0 <= i <= 255)%Z -> (0 <= j <= 255)%Z ->
  (of_uint63 (Uint63.of_Z i) / 255 <? of_uint63 (Uint63.of_Z j) / 255) = (i <? j)%Z.
Proof.
  intros Hi Hj. destruct (Z.ltb_spec i j) as [H|H].
  - destruct (channel_ordered i j ltac:(lia) ltac:(lia)) as (E & _). exact E.
  - destruct (Z.eq_dec i j) as [->|Hne].
    + destruct (channel_plain j Hj) as (_ & _ & E). exact E.
    + destruct (channel_ordered j i ltac:(lia) ltac:(lia)) as (_ & E & _). exact E.
Qed.

Lemma Math_max_channels (r g b : Z) :
  (0 <= r <= 255)%Z -> (0 <= g <= 255)%Z -> (0 <= b <= 255)%Z ->
  JS.Math_max [of_uint63 (Uint63.of_Z r) / 255; of_uint63 (Uint63.of_Z g) / 255;
               of_uint63 (Uint63.of_Z b) / 255]
  = of_uint63 (Uint63.of_Z (Z.max (Z.max r g) b)) / 255.
Proof.
  intros Hr Hg Hb.
  destruct (channel_plain r Hr) as (Pr & _). destruct (channel_plain g Hg) as (Pg & _).
  destruct (channel_plain b Hb) as (Pb & _).
  rewrite Math_max3 by assumption. rewrite (channel_ltb r g) by assumption.
  destruct (Z.ltb_spec r g) as [H|H].
  - rewrite (channel_ltb g b) by assumption.
    destruct (Z.ltb_spec g b) as [H'|H']; f_equal; f_equal; f_equal; lia.
  - rewrite (channel_ltb r b) by assumption.
    destruct (Z.ltb_spec r b) as [H'|H']; f_equal; f_equal; f_equal; lia.
Qed.

Lemma Math_min_channels (r g b : Z) :
  (0 <= r <= 255)%Z -> (0 <= g <= 255)%Z -> (0 <= b <= 255)%Z ->
  JS.Math_min [of_uint63 (Uint63.of_Z r) / 255; of_uint63 (Uint63.of_Z g) / 255;
               of_uint63 (Uint63.of_Z b) / 255]
  = of_uint63 (Uint63.of_Z (Z.min (Z.min r g) b)) / 255.
Proof.
  intros Hr Hg Hb.
  destruct (channel_plain r Hr) as (Pr & _). destruct (channel_plain g Hg) as (Pg & _).
  destruct (channel_plain b Hb) as (Pb & _).
  rewrite Math_min3 by assumption. rewrite (channel_ltb g r) by assumption.
  destruct (Z.ltb_spec g r) as [H|H].
  - rewrite (channel_ltb b g) by assumption.
    destruct (Z.ltb_spec b g) as [H'|H']; f_equal; f_equal; f_equal; lia.
  - rewrite (channel_ltb b r) by assumption.
    destruct (Z.ltb_spec b r) as [H'|H']; f_equal; f_equal; f_equal; lia.
Qed.

Lemma RGBAtoHSVA_by_extremes (r g b a hi lo : JS.number) :
  JS.Math_max [r / 255; g / 255; b / 255] = hi ->
  JS.Math_min [r / 255; g / 255; b / 255] = lo ->
  HSVA.s (RGBAtoHSVA (RGBA.mk r g b a))
  = JS.Math_round
      ((if JS.truthy (hi - lo) then (if JS.truthy hi then (hi - lo) / hi else 0) else 0) * 100)
  /\ HSVA.v (RGBAtoHSVA (RGBA.mk r g b a)) = JS.Math_round (hi * 100).
Proof.
  intros Hmax Hmin. unfold RGBAtoHSVA. cbn [RGBA.r RGBA.g RGBA.b RGBA.a HSVA.s HSVA.v].
  cbv zeta. rewrite Hmax, Hmin. split; reflexivity.
Qed.

Lemma extremes_check :
  all_int2 256 256 (fun lo hi =>
    if (lo <=? hi)%uint63 then
      between_int 0 100
        (JS.Math_round
           ((if JS.truthy (of_uint63 hi / 255 - of_uint63 lo / 255)
             then (if JS.truthy (of_uint63 hi / 255)
                   then (of_uint63 hi / 255 - of_uint63 lo / 255) / (of_uint63 hi / 255)
                   else 0)
             else 0) * 100))
      && between_int 0 100 (JS.Math_round (of_uint63 hi / 255 * 100))
    else true) = true.
Proof. vm_cast_no_check (eq_refl true). Qed.

(** X24.  For integer r, g and b from 0 to 255, the saturation and the
    value RGBAtoHSVA returns are integers from 0 to 100, and the alpha is
    the one it was given. *)
Theorem RGBAtoHSVA_percentages (r g b : Z) (a : JS.number) :
  (0 <= r <= 255)%Z -> (0 <= g <= 255)%Z -> (0 <= b <= 255)%Z ->
  int_between 0 100 (HSVA.s (RGBAtoHSVA (rgba_of r g b a)))
  /\ int_between 0 100 (HSVA.v (RGBAtoHSVA (rgba_of r g b a)))
  /\ HSVA.a (RGBAtoHSVA (rgba_of r g b a)) = a.
Proof.
  intros Hr Hg Hb. destruct grid_sizes as [_ [_ N3]].
  assert (Hw : (256 < wB)%Z) by reflexivity.
  set (hi := Z.max (Z.max r g) b). set (lo := Z.min (Z.min r g) b).
  assert (Hhi : (0 <= hi <= 255)%Z) by (unfold hi; lia).
  assert (Hlo : (0 <= lo <= hi)%Z) by (unfold hi, lo; lia).
  pose proof (all_int2_spec _ _ _ extremes_check N3 N3 lo hi
                ltac:(cbn; lia) ltac:(cbn; lia)) as E.
  cbv beta in E.
  assert (Hle : (Uint63.of_Z lo <=? Uint63.of_Z hi)%uint63 = true).
  { apply Uint63.leb_spec. rewrite !to_Z_of_small by lia. lia. }
  rewrite Hle in E. apply andb_prop in E. destruct E as [Es Ev].
  apply between_int_between in Es, Ev.
  change (Uint63.to_Z 0) with 0%Z in Es, Ev. change (Uint63.to_Z 100) with 100%Z in Es, Ev.
  unfold rgba_of. rewrite !of_int_nonneg by lia.
  destruct (RGBAtoHSVA_by_extremes _ _ _ a _ _
              (Math_max_channels r g b Hr Hg Hb) (Math_min_channels r g b Hr Hg Hb))
    as [Rs Rv].
  fold hi in Rs, Rv. fold lo in Rs.
  rewrite Rs, Rv. split; [exact Es|]. split; [exact Ev|reflexivity].
Qed.

Lemma RGBAtoHSVA_percentages_witness :
  int_between 0 100 (HSVA.s (RGBAtoHSVA (rgba_of 26 43 60 1))).
Proof.
  exact (proj1 (RGBAtoHSVA_percentages 26 43 60 1 ltac:(lia) ltac:(lia) ltac:(lia))).
Defined.

(** ** HSVAtoHSLA on the grid *)

Lemma hsl_check :
  all_int2 101 101 (fun s v =>
    between_int 0 100 (HSLA.s (HSVAtoHSLA (HSVA.mk 0 (of_uint63 s) (of_uint63 v) 1)))
    && between_int 0 100 (HSLA.l (HSVAtoHSLA (HSVA.mk 0 (of_uint63 s) (of_uint63 v) 1))))
  = true.
Proof. vm_cast_no_check (eq_refl true). Qed.

Lemma HSVAtoHSLA_channels (h s v a : JS.number) :
  HSLA.s (HSVAtoHSLA (HSVA.mk h s v a)) = HSLA.s (HSVAtoHSLA (HSVA.mk 0 s v 1))
  /\ HSLA.l (HSVAtoHSLA (HSVA.mk h s v a)) = HSLA.l (HSVAtoHSLA (HSVA.mk 0 s v 1)).
Proof. split; reflexivity. Qed.

(** X25.  For an integer saturation and an integer value from 0 to 100,
    the saturation and the lightness HSVAtoHSLA returns are integers from 0
    to 100, whatever the hue and the alpha, which are returned as given. *)
Theorem HSVAtoHSLA_percentages (s v : Z) (h a : JS.number) :
  (0 <= s <= 100)%Z -> (0 <= v <= 100)%Z ->
  int_between 0 100 (HSLA.s (HSVAtoHSLA (HSVA.mk h (JS.of_int s) (JS.of_int v) a)))
  /\ int_between 0 100 (HSLA.l (HSVAtoHSLA (HSVA.mk h (JS.of_int s) (JS.of_int v) a)))
  /\ HSLA.h (HSVAtoHSLA (HSVA.mk h (JS.of_int s) (JS.of_int v) a)) = h
  /\ HSLA.a (HSVAtoHSLA (HSVA.mk h (JS.of_int s) (JS.of_int v) a)) = a.
Proof.
  intros Hs Hv. destruct grid_sizes as [_ [N2 _]].
  pose proof (all_int2_spec _ _ _ hsl_check N2 N2 s v ltac:(cbn; lia) ltac:(cbn; lia)) as E.
  cbv beta in E. apply andb_prop in E. destruct E as [Es El].
  apply between_int_between in Es, El.
  change (Uint63.to_Z 0) with 0%Z in Es, El. change (Uint63.to_Z 100) with 100%Z in Es, El.
  rewrite !of_int_nonneg by lia.
  destruct (HSVAtoHSLA_channels h (of_uint63 (Uint63.of_Z s)) (of_uint63 (Uint63.of_Z v)) a)
    as [Rs Rl].
  rewrite Rs, Rl. split; [exact Es|]. split; [exact El|]. split; reflexivity.
Qed.

Lemma HSVAtoHSLA_percentages_witness :
  int_between 0 100 (HSLA.l (HSVAtoHSLA (HSVA.mk 210 (JS.of_int 57) (JS.of_int 24) 1))).
Proof.
  exact (proj1 (proj2 (HSVAtoHSLA_percentages 57 24 210 1 ltac:(lia) ltac:(lia)))).
Defined.

(** * Strings, patterns and the platform: properties *)

Local Close Scope float_scope.
Local Open Scope string_scope.

(** ** Strings *)

Lemma append_assoc (a b c : string) : (a ++ b) ++ c = a ++ (b ++ c).
Proof. induction a as [|x a IH]; [reflexivity|]. cbn. now rewrite IH. Qed.

Lemma append_empty (a : string) : a ++ "" = a.
Proof. induction a as [|x a IH]; [reflexivity|]. cbn. now rewrite IH. Qed.

Lemma length_append (u v : string) :
  String.length (u ++ v) = (String.length u + String.length v)%nat.
Proof. induction u as [|x u IH]; [reflexivity|]. cbn. now rewrite IH. Qed.

Lemma take_append (u v : string) : Str.take (String.length u) (u ++ v) = u.
Proof.
  induction u as [|x u IH]; cbn.
  - destruct v; reflexivity.
  - now rewrite IH.
Qed.

Lemma taken_append (u v : string) : Str.taken (u ++ v) v = u.
Proof.
  unfold Str.taken. rewrite length_append.
  replace (String.length u + String.length v - String.length v)%nat
    with (String.length u) by lia.
  apply take_append.
Qed.

Lemma rev_onto_append : forall s acc, Str.rev_onto s acc = Str.rev s ++ acc.
Proof.
  unfold Str.rev. induction s as [|c s IH]; intros acc; [reflexivity|].
  cbn [Str.rev_onto]. rewrite IH, (IH (String c "")), append_assoc. reflexivity.
Qed.

Lemma rev_append : forall a b, Str.rev (a ++ b) = Str.rev b ++ Str.rev a.
Proof.
  induction a as [|c a IH]; intros b.
  - change (Str.rev b = Str.rev b ++ ""). now rewrite append_empty.
  - unfold Str.rev. cbn [append Str.rev_onto]. rewrite !rev_onto_append, IH.
    now rewrite append_empty, append_assoc.
Qed.

Lemma rev_involutive : forall s, Str.rev (Str.rev s) = s.
Proof.
  induction s as [|c s IH]; [reflexivity|].
  unfold Str.rev at 2. cbn [Str.rev_onto]. rewrite rev_onto_append, rev_append, IH.
  reflexivity.
Qed.

Lemma forallb_append p : forall a b,
  Str.forallb p (a ++ b) = Str.forallb p a && Str.forallb p b.
Proof.
  induction a as [|c a IH]; intros b; [reflexivity|].
  cbn. destruct (p c); [apply IH|reflexivity].
Qed.

Lemma forallb_rev p : forall s, Str.forallb p (Str.rev s) = Str.forallb p s.
Proof.
  induction s as [|c s IH]; [reflexivity|].
  unfold Str.rev. cbn [Str.rev_onto]. rewrite rev_onto_append, forallb_append, IH.
  cbn. destruct (p c); [now rewrite andb_true_r | now rewrite andb_false_r].
Qed.

Lemma forallb_weaken (p q : ascii -> bool) :
  (forall a, p a = true -> q a = true) ->
  forall s, Str.forallb p s = true -> Str.forallb q s = true.
Proof.
  intros H. induction s as [|a s IH]; [reflexivity|]. cbn [Str.forallb].
  destruct (p a) eqn:E; [|discriminate]. rewrite (H a E). exact IH.
Qed.

Lemma trim_start_split : forall s,
  exists l, s = l ++ Str.trim_start s /\
            Str.forallb Str.is_white_space l = true /\
            Str.starts_blank (Str.trim_start s) = false.
Proof.
  induction s as [|c s IH].
  - exists "". repeat split.
  - cbn [Str.trim_start]. destruct (Str.is_white_space c) eqn:E.
    + destruct IH as [l [Hs [Hl Hb]]]. exists (String c l). repeat split.
      * cbn. now rewrite <- Hs.
      * cbn [Str.forallb]. now rewrite E.
      * exact Hb.
    + exists "". repeat split. exact E.
Qed.

(** [trim] removes the white space at the two ends, and nothing else. *)
Lemma trim_trimmed (v : string) : Str.trimmed v (Str.trim v).
Proof.
  unfold Str.trim.
  destruct (trim_start_split v) as [l [Hv [Hl Hb]]].
  destruct (trim_start_split (Str.rev (Str.trim_start v))) as [r [Hr [Hrw Hrb]]].
  set (t1 := Str.trim_start v) in *.
  set (t2 := Str.trim_start (Str.rev t1)) in *.
  assert (H1 : t1 = Str.rev t2 ++ Str.rev r).
  { rewrite <- (rev_involutive t1), Hr, rev_append. reflexivity. }
  exists l, (Str.rev r). repeat split.
  - rewrite <- H1. exact Hv.
  - exact Hl.
  - now rewrite forallb_rev.
  - rewrite H1 in Hb. destruct (Str.rev t2); [reflexivity|exact Hb].
  - now rewrite rev_involutive.
Qed.

Lemma starts_with_i_split : forall w s, Str.starts_with_i w s = true ->
  exists p, s = p ++ Str.drop (String.length w) s /\ Str.upper p = Str.upper w.
Proof.
  induction w as [|a w IH]; intros s H.
  - exists "". split; [destruct s; reflexivity|reflexivity].
  - destruct s as [|b s]; [discriminate|]. cbn [Str.starts_with_i] in H.
    destruct (Ascii.eqb (Str.to_upper b) (Str.to_upper a)) eqn:E; [|discriminate].
    apply Ascii.eqb_eq in E. destruct (IH s H) as [p [Hp Hu]].
    exists (String b p). split.
    + cbn. now rewrite <- Hp.
    + cbn. now rewrite E, Hu.
Qed.

Lemma starts_with_i_append : forall w p t, Str.upper p = Str.upper w ->
  Str.starts_with_i w (p ++ t) = true /\ Str.drop (String.length w) (p ++ t) = t.
Proof.
  induction w as [|a w IH]; intros p t H.
  - destruct p; [|discriminate]. split; [reflexivity|]. destruct t; reflexivity.
  - destruct p as [|b p]; [discriminate|]. cbn in H. injection H as Hb Hp.
    cbn [append Str.starts_with_i String.length Str.drop]. rewrite Hb, Ascii.eqb_refl.
    now apply IH.
Qed.

Lemma to_upper_fixed (c d : ascii) :
  (d = "("%char \/ d = "-"%char) -> Ascii.eqb (Str.to_upper c) d = true -> c = d.
Proof.
  intros [-> | ->]; destruct c as [[] [] [] [] [] [] [] []]; intros E;
    try reflexivity; discriminate E.
Qed.

(** ** The matcher *)

(** A pattern anchored at the start matches at the start or nowhere. *)
Lemma exec_from_bol r : forall s, Regex.exec_from (Regex.Seq Regex.Bol r) false s = None.
Proof.
  induction s as [|a s IH]; [reflexivity|].
  cbn [Regex.exec_from Regex.run]. exact IH.
Qed.

Lemma exec_bol r s :
  Regex.exec (Regex.Seq Regex.Bol r) s = Regex.run r true s [] (Regex.found s).
Proof.
  unfold Regex.exec. destruct s as [|a s]; cbn [Regex.exec_from Regex.run].
  - destruct (Regex.run r true "" [] _); reflexivity.
  - rewrite exec_from_bol. destruct (Regex.run r true (String a s) [] _); reflexivity.
Qed.

Lemma run_literal_i {A} w : forall st s c (k : bool -> string -> Regex.captures -> option A),
  Regex.run (Regex.literal_i w) st s c k =
  if Str.starts_with_i w s
  then k (if Str.is_empty w then st else false) (Str.drop (String.length w) s) c
  else None.
Proof.
  induction w as [|a w IH]; intros st s c k.
  - destruct s; reflexivity.
  - cbn [Regex.literal_i Regex.run]. destruct s as [|b s]; [reflexivity|].
    cbn [Str.starts_with_i Str.drop String.length Str.is_empty].
    destruct (Ascii.eqb (Str.to_upper b) (Str.to_upper a)); [|reflexivity].
    rewrite IH. destruct (Str.starts_with_i w s); [|reflexivity].
    destruct w; reflexivity.
Qed.

(** A greedy run of [p] goes to the end of the characters of [p] when
    what follows can be matched there. *)
Lemma greedy_span {A} p : forall u v c (k : string -> Regex.captures -> option A) x,
  Str.forallb p u = true -> stops p v -> k v c = Some x ->
  Regex.greedy p (u ++ v) c k = Some x.
Proof.
  induction u as [|a u IH]; intros v c k x Hu Hv Hk.
  - cbn [append]. destruct v as [|b v]; cbn [Regex.greedy]; [exact Hk|].
    cbn [stops] in Hv. rewrite Hv. exact Hk.
  - cbn [Str.forallb] in Hu. destruct (p a) eqn:Ea; [|discriminate].
    cbn [append Regex.greedy]. rewrite Ea, (IH v c k x Hu Hv Hk). reflexivity.
Qed.

Lemma plus_span {A} p a u v st c (k : bool -> string -> Regex.captures -> option A) x :
  p a = true -> Str.forallb p u = true -> stops p v -> k false v c = Some x ->
  Regex.run (Regex.Plus p) st (String a (u ++ v)) c k = Some x.
Proof.
  intros Ha Hu Hv Hk. cbn [Regex.run]. rewrite Ha.
  apply greedy_span; assumption.
Qed.

Lemma group_plus_span {A} n p a u v st c
    (k : bool -> string -> Regex.captures -> option A) x :
  p a = true -> Str.forallb p u = true -> stops p v ->
  k false v ((n, String a u) :: c) = Some x ->
  Regex.run (Regex.Group n (Regex.Plus p)) st (String a (u ++ v)) c k = Some x.
Proof.
  intros Ha Hu Hv Hk. cbn [Regex.run]. rewrite Ha.
  apply greedy_span; [assumption|assumption|].
  change (String a (u ++ v)) with (String a u ++ v). rewrite taken_append. exact Hk.
Qed.

Lemma numeral_shape p s : numeral p s = true ->
  exists d u, s = String d u /\ p d = true /\ Str.forallb p u = true.
Proof.
  destruct s as [|d u]; [discriminate|]. cbn [numeral]. intros H.
  apply andb_prop in H. destruct H. now exists d, u.
Qed.

(** ** checkIfCSSVar *)

Lemma greedy_closes {A} (x : A) (k : string -> Regex.captures -> option A) c :
  (forall s, k s c = if String.eqb s ")" then Some x else None) ->
  forall t, Regex.greedy Regex.any t c k = if closes t then Some x else None.
Proof.
  intros Hk. induction t as [|a t IH]; cbn [Regex.greedy closes].
  - rewrite Hk. reflexivity.
  - rewrite IH. destruct t as [|b t].
    + cbn [closes Str.is_empty]. rewrite !Hk. cbn [String.eqb].
      destruct (Regex.any a); [destruct (Ascii.eqb a ")"); reflexivity|].
      destruct (Ascii.eqb a ")"); reflexivity.
    + cbn [Str.is_empty]. rewrite Hk.
      assert (E : String.eqb (String a (String b t)) ")" = false).
      { cbn [String.eqb]. destruct (Ascii.eqb a ")"); reflexivity. }
      rewrite E. destruct (Regex.any a); [|reflexivity].
      cbn [andb]. destruct (closes (String b t)); reflexivity.
Qed.

Lemma closing_continuation (s0 g : string) c s :
  Regex.run (Regex.Seq (Regex.literal_i ")") Regex.Eol) false s ((1%nat, Str.taken g s) :: c)
    (Regex.found s0) =
  if String.eqb s ")"
  then Some {| Regex.matched := Str.taken s0 ""; Regex.groups := (1%nat, Str.taken g ")") :: c |}
  else None.
Proof.
  cbn [Regex.run]. rewrite run_literal_i.
  destruct s as [|a s]; [reflexivity|].
  cbn [Str.starts_with_i String.eqb].
  change (Str.to_upper ")") with ")"%char.
  destruct (Ascii.eqb a ")") eqn:E.
  - apply Ascii.eqb_eq in E. subst a. cbn. destruct s; reflexivity.
  - assert (E' : Ascii.eqb (Str.to_upper a) ")" = false).
    { destruct a as [[] [] [] [] [] [] [] []]; try reflexivity; discriminate. }
    rewrite E'. reflexivity.
Qed.

Lemma checkIfCSSVar_var_name s :
  checkIfCSSVar s =
  match var_name s with
  | Some n => CSSVar.mk true (Some n)
  | None => CSSVar.mk false None
  end.
Proof.
  unfold checkIfCSSVar, css_var_pattern, var_name. rewrite exec_bol.
  cbn [Regex.run]. rewrite run_literal_i.
  destruct (Str.starts_with_i "var(" s); [|reflexivity].
  cbn [String.length Str.is_empty]. rewrite run_literal_i.
  destruct (Str.starts_with_i "--" (Str.drop 4 s)); [|reflexivity].
  cbn [String.length Str.is_empty].
  destruct (Str.drop 2 (Str.drop 4 s)) as [|a r]; [reflexivity|].
  destruct (Regex.any a); [|reflexivity].
  rewrite (greedy_closes
             {| Regex.matched := Str.taken s ""; Regex.groups := [(1%nat, Str.taken (Str.drop 4 s) ")")] |}).
  - destruct (closes r); reflexivity.
  - intros t. apply (closing_continuation s (Str.drop 4 s) [] t).
Qed.

Lemma closes_split : forall r, closes r = true ->
  exists u, r = u ++ ")" /\ Str.forallb Regex.any u = true.
Proof.
  induction r as [|a r IH]; [discriminate|]. cbn [closes].
  destruct r as [|b r].
  - cbn [Str.is_empty]. intros E. apply Ascii.eqb_eq in E. subst a. now exists "".
  - cbn [Str.is_empty]. intros E. apply andb_prop in E. destruct E as [Ea Er].
    destruct (IH Er) as [u [Hu Hall]]. exists (String a u). split.
    + cbn. now rewrite <- Hu.
    + cbn. now rewrite Ea.
Qed.

Lemma closes_append : forall u, Str.forallb Regex.any u = true -> closes (u ++ ")") = true.
Proof.
  induction u as [|a u IH]; [reflexivity|]. cbn [Str.forallb]. intros H.
  destruct (Regex.any a) eqn:Ea; [|discriminate].
  change (String a u ++ ")") with (String a (u ++ ")")). cbn [closes].
  rewrite Ea, (IH H). destruct u; reflexivity.
Qed.

Lemma var_name_reference s name : var_name s = Some name <-> is_var_reference s name.
Proof.
  unfold var_name, is_var_reference. split.
  - destruct (Str.starts_with_i "var(" s) eqn:E1; [|discriminate].
    destruct (Str.starts_with_i "--" (Str.drop 4 s)) eqn:E2; [|discriminate].
    destruct (Str.drop 2 (Str.drop 4 s)) as [|a r] eqn:E3; [discriminate|].
    destruct (Regex.any a) eqn:Ea; [|discriminate].
    destruct (closes r) eqn:Er; [|discriminate].
    intros H. assert (Hn : name = Str.taken (Str.drop 4 s) ")") by congruence.
    clear H. subst name.
    apply starts_with_i_split in E1. destruct E1 as [p [Hs Hp]].
    apply starts_with_i_split in E2. destruct E2 as [q [Ht Hq]].
    cbn [String.length] in Hs, Ht. rewrite E3 in Ht.
    apply closes_split in Er. destruct Er as [u [-> Hu]].
    destruct p as [|c1 [|c2 [|c3 [|c4 [|c5 p]]]]]; try discriminate Hp.
    cbn in Hp. injection Hp as H1 H2 H3 H4.
    destruct q as [|d1 [|d2 [|d3 q]]]; try discriminate Hq.
    cbn in Hq. injection Hq as H5 H6.
    assert (c4 = "("%char) as -> by (apply to_upper_fixed; [now left | now rewrite H4]).
    assert (d1 = "-"%char) as -> by (apply to_upper_fixed; [now right | now rewrite H5]).
    assert (d2 = "-"%char) as -> by (apply to_upper_fixed; [now right | now rewrite H6]).
    exists (String c1 (String c2 (String c3 ""))), (String a u).
    rewrite Ht. split; [|split; [|split; [|split]]].
    + rewrite Hs at 1. rewrite Ht.
      change ("--" ++ String a (u ++ ")")) with (("--" ++ String a u) ++ ")").
      rewrite taken_append. reflexivity.
    + cbn. now rewrite H1, H2, H3.
    + change ("--" ++ String a (u ++ ")")) with (("--" ++ String a u) ++ ")").
      apply taken_append.
    + discriminate.
    + cbn. now rewrite Ea.
  - intros [f [x [Hs [Hf [Hn [Hx Hall]]]]]]. subst name.
    destruct x as [|a u]; [contradiction|]. cbn in Hall.
    destruct (Regex.any a) eqn:Ea; [|discriminate].
    assert (Hs' : s = (f ++ "(") ++ (("--" ++ String a u) ++ ")"))
      by (rewrite Hs; now rewrite (append_assoc f "(")).
    destruct (starts_with_i_append "var(" (f ++ "(") (("--" ++ String a u) ++ ")")) as [E1 D1].
    { destruct f as [|c1 [|c2 [|c3 [|c4 f]]]]; try discriminate Hf.
      cbn in Hf. injection Hf as H1 H2 H3. cbn. now rewrite H1, H2, H3. }
    rewrite <- Hs' in E1, D1. cbn [String.length] in D1. rewrite E1, D1.
    rewrite taken_append. cbn. now rewrite Ea, (closes_append u Hall).
Qed.

(** X1.  checkIfCSSVar reports a CSS variable exactly for the strings made
    of the word var in any letter case, an opening parenthesis, a name that
    is -- followed by at least one character, none of them a line
    terminator, and a closing parenthesis as the last character; it then
    gives that name; for every other string it gives false and no name. *)
Theorem checkIfCSSVar_exact (s : string) :
  (forall name, is_var_reference s name ->
     checkIfCSSVar s = CSSVar.mk true (Some name)) /\
  ((forall name, ~ is_var_reference s name) ->
     checkIfCSSVar s = CSSVar.mk false None) /\
  (CSSVar.isCSSVar (checkIfCSSVar s) = true ->
     exists name, is_var_reference s name /\ CSSVar.cssVar (checkIfCSSVar s) = Some name).
Proof.
  rewrite checkIfCSSVar_var_name. split; [|split].
  - intros name H. apply var_name_reference in H. now rewrite H.
  - intros H. destruct (var_name s) as [n|] eqn:E; [|reflexivity].
    apply var_name_reference in E. now destruct (H n).
  - destruct (var_name s) as [n|] eqn:E; [|discriminate].
    intros _. exists n. split; [now apply var_name_reference|reflexivity].
Qed.

Lemma checkIfCSSVar_exact_witness :
  checkIfCSSVar "Var(--brand)" = CSSVar.mk true (Some "--brand").
Proof.
  apply (proj1 (checkIfCSSVar_exact "Var(--brand)")).
  exists "Var", "brand". repeat split; discriminate.
Defined.

(** The name goes up to the last parenthesis, a name without a character
    after the dashes is refused, and so is one with a line break. *)
Lemma checkIfCSSVar_examples :
  checkIfCSSVar "var(--a, var(--b))" = CSSVar.mk true (Some "--a, var(--b)") /\
  checkIfCSSVar "var(--)" = CSSVar.mk false None /\
  checkIfCSSVar (String "v" (String "a" (String "r" (String "(" (String "-" (String "-"
     (String "a" (String (ascii_of_nat 10) (String "b" (String ")" ""))))))))))
    = CSSVar.mk false None /\
  checkIfCSSVar " var(--a)" = CSSVar.mk false None.
Proof. repeat split. Qed.

(** ** getCSSVar *)

(** X2.  getCSSVar gives null only when the platform has no
    getComputedStyle.  Otherwise it gives a string: the name it was given
    when the property value is missing, empty or only white space, and else
    the value without the white space at its two ends. *)
Theorem getCSSVar_fallbacks (name : string) :
  getCSSVar None name = None /\
  forall getPropertyValue : string -> option string,
    (getPropertyValue name = None ->
       getCSSVar (Some getPropertyValue) name = Some name) /\
    (forall v, getPropertyValue name = Some v ->
       Str.trimmed v (Str.trim v) /\
       (Str.trim v = "" -> getCSSVar (Some getPropertyValue) name = Some name) /\
       (Str.trim v <> "" -> getCSSVar (Some getPropertyValue) name = Some (Str.trim v))).
Proof.
  split; [reflexivity|]. intros f. unfold getCSSVar. split.
  - intros ->. reflexivity.
  - intros v ->. split; [apply trim_trimmed|]. cbn [option_map]. split.
    + intros ->. reflexivity.
    + intros H. destruct (Str.trim v); [contradiction|reflexivity].
Qed.

Lemma getCSSVar_fallbacks_witness :
  getCSSVar (Some (fun _ => Some "  #1a2b3c ")) "--brand" = Some "#1a2b3c".
Proof.
  destruct (proj2 (getCSSVar_fallbacks "--brand") (fun _ => Some "  #1a2b3c "))
    as [_ H].
  destruct (H "  #1a2b3c " eq_refl) as [_ [_ H']].
  apply H'. discriminate.
Defined.

(** ** strToRGBA *)

Lemma strToRGBA_fillStyle parse_color ctx str :
  strToRGBA parse_color ctx str =
  (fillStyle_to_rgba
     (Canvas.serialize
        (Canvas.set_fillStyle parse_color (Canvas.set_fillStyle parse_color ctx "#000") str)),
   Canvas.set_fillStyle parse_color (Canvas.set_fillStyle parse_color ctx "#000") str).
Proof. reflexivity. Qed.

(** *** Opaque colours *)

Lemma hex_digits_any (c : Byte.byte) : Str.forallb Regex.any (Canvas.hex_digits c) = true.
Proof. destruct c; reflexivity. Qed.

Lemma hex_digits_value (c : Byte.byte) : Num.parseInt (Canvas.hex_digits c) 16 = byte_number c.
Proof. destruct c; vm_compute; reflexivity. Qed.

Lemma match_all_pairs (a1 a2 b1 b2 c1 c2 : ascii) :
  Regex.any a1 = true -> Regex.any a2 = true -> Regex.any b1 = true ->
  Regex.any b2 = true -> Regex.any c1 = true -> Regex.any c2 = true ->
  Regex.match_all pair_pattern
    (String a1 (String a2 (String b1 (String b2 (String c1 (String c2 "")))))) =
  Some [String a1 (String a2 ""); String b1 (String b2 ""); String c1 (String c2 "")].
Proof.
  intros H1 H2 H3 H4 H5 H6. unfold Regex.match_all, pair_pattern.
  cbn [String.length Regex.match_all_from Regex.run Regex.times].
  rewrite H1, H2. cbn [String.length Nat.ltb Nat.leb].
  rewrite H3, H4. cbn [String.length Nat.ltb Nat.leb].
  rewrite H5, H6. cbn [String.length Nat.ltb Nat.leb].
  reflexivity.
Qed.

Lemma opaque_fillStyle (r g b : Byte.byte) :
  fillStyle_to_rgba (Canvas.serialize (Canvas.Opaque r g b)) =
  Returned (rgba_result r g b 1%float).
Proof.
  pose proof (hex_digits_any r) as Hr. pose proof (hex_digits_any g) as Hg.
  pose proof (hex_digits_any b) as Hb.
  pose proof (hex_digits_value r) as Vr. pose proof (hex_digits_value g) as Vg.
  pose proof (hex_digits_value b) as Vb.
  unfold fillStyle_to_rgba, rgba_result. cbn [Canvas.serialize].
  unfold Canvas.hex_digits in *.
  set (r1 := Str.digit_char (Canvas.channel r / 16)) in *.
  set (r2 := Str.digit_char (Canvas.channel r mod 16)) in *.
  set (g1 := Str.digit_char (Canvas.channel g / 16)) in *.
  set (g2 := Str.digit_char (Canvas.channel g mod 16)) in *.
  set (b1 := Str.digit_char (Canvas.channel b / 16)) in *.
  set (b2 := Str.digit_char (Canvas.channel b mod 16)) in *.
  clearbody r1 r2 g1 g2 b1 b2.
  change ("#" ++ String r1 (String r2 "") ++ String g1 (String g2 "") ++ String b1 (String b2 ""))
    with (String "#" (String r1 (String r2 (String g1 (String g2 (String b1 (String b2 ""))))))).
  unfold rgba_pattern. rewrite exec_bol.
  replace (Regex.run _ true (String "#" _) [] _) with (@None Regex.result) by reflexivity.
  change (Str.replace_first "#" "" (String "#" ?t)) with t.
  cbn [Str.forallb] in Hr, Hg, Hb.
  destruct (Regex.any r1) eqn:R1; [|discriminate].
  destruct (Regex.any r2) eqn:R2; [|discriminate].
  destruct (Regex.any g1) eqn:G1; [|discriminate].
  destruct (Regex.any g2) eqn:G2; [|discriminate].
  destruct (Regex.any b1) eqn:B1; [|discriminate].
  destruct (Regex.any b2) eqn:B2; [|discriminate].
  rewrite match_all_pairs by assumption.
  cbn [map nth_error]. rewrite Vr, Vg, Vb. reflexivity.
Qed.

(** *** Colours with an alpha *)

Lemma run_alpha s0 st d u c :
  Regex.digit_or_dot d = true -> Str.forallb Regex.digit_or_dot u = true ->
  Regex.run alpha_group st (String d (u ++ ")")) c (Regex.found s0) =
  Some {| Regex.matched := Str.taken s0 ")"; Regex.groups := (6%nat, String d u) :: c |}.
Proof.
  intros Hd Hu. unfold alpha_group. cbn [Regex.run]. rewrite Hd.
  rewrite (greedy_span Regex.digit_or_dot u ")" c _
             {| Regex.matched := Str.taken s0 ")"; Regex.groups := (6%nat, String d u) :: c |});
    [reflexivity|assumption|reflexivity|].
  unfold Regex.found. change (String d (u ++ ")")) with (String d u ++ ")").
  now rewrite taken_append.
Qed.

Lemma run_alpha_fails s0 st a w c :
  Regex.digit_or_dot a = false ->
  Regex.run alpha_group st (String a w) c (Regex.found s0) = None.
Proof. intros Ha. unfold alpha_group. cbn [Regex.run]. now rewrite Ha. Qed.

Lemma run_blue s0 st d u d' u' c :
  Regex.digit_or_dot d = true -> Str.forallb Regex.digit_or_dot u = true ->
  Regex.digit_or_dot d' = true -> Str.forallb Regex.digit_or_dot u' = true ->
  Regex.run
    (Regex.Seq (Regex.Group 5 (Regex.Plus Regex.digit_or_dot))
               (Regex.Seq (Regex.LazyStar Regex.non_digit) alpha_group))
    st (String d (u ++ ", " ++ String d' (u' ++ ")"))) c (Regex.found s0) =
  Some {| Regex.matched := Str.taken s0 ")";
          Regex.groups := (6%nat, String d' u') :: (5%nat, String d u) :: c |}.
Proof.
  intros Hd Hu Hd' Hu'.
  change (Regex.run (Regex.Seq ?a ?b) st ?s c ?k)
    with (Regex.run a st s c (fun st' s' c' => Regex.run b st' s' c' k)).
  apply group_plus_span; [assumption|assumption|reflexivity|].
  cbv beta.
  change (", " ++ String d' (u' ++ ")")) with (String "," (String " " (String d' (u' ++ ")")))).
  cbn [Regex.run Regex.lazy_star].
  rewrite (run_alpha_fails s0 false "," _ _ eq_refl).
  change (Regex.non_digit ",") with true. cbv iota.
  rewrite (run_alpha_fails s0 false " " _ _ eq_refl).
  change (Regex.non_digit " ") with true. cbv iota.
  rewrite run_alpha by assumption. reflexivity.
Qed.

Lemma run_gap s0 R st a u d w c x :
  Regex.non_digit a = true -> Str.forallb Regex.non_digit u = true ->
  Regex.non_digit d = false ->
  Regex.run R false (String d w) c (Regex.found s0) = Some x ->
  Regex.run (Regex.Seq (Regex.Plus Regex.non_digit) R) st (String a (u ++ String d w)) c
    (Regex.found s0) = Some x.
Proof.
  intros Ha Hu Hd Hx.
  change (Regex.run (Regex.Seq ?a ?b) st ?s c ?k)
    with (Regex.run a st s c (fun st' s' c' => Regex.run b st' s' c' k)).
  apply plus_span; assumption.
Qed.

Lemma run_number s0 n R st d u v c x :
  Regex.digit_or_dot d = true -> Str.forallb Regex.digit_or_dot u = true ->
  stops Regex.digit_or_dot v ->
  Regex.run R false v ((n, String d u) :: c) (Regex.found s0) = Some x ->
  Regex.run (Regex.Seq (Regex.Group n (Regex.Plus Regex.digit_or_dot)) R) st
    (String d (u ++ v)) c (Regex.found s0) = Some x.
Proof.
  intros Hd Hu Hv Hx.
  change (Regex.run (Regex.Seq ?a ?b) st ?s c ?k)
    with (Regex.run a st s c (fun st' s' c' => Regex.run b st' s' c' k)).
  apply group_plus_span; assumption.
Qed.

Lemma run_name s0 R st w c x :
  Regex.run R false w ((1%nat, "rgba") :: (2%nat, "rgba") :: c) (Regex.found s0) = Some x ->
  Regex.run
    (Regex.Seq (Regex.Group 1 (Regex.Alt (Regex.Group 2 (Regex.literal_i "rgba"))
                                         (Regex.literal_i "rgb"))) R)
    st ("rgba" ++ w) c (Regex.found s0) = Some x.
Proof.
  intros Hx. cbn [Regex.run]. rewrite run_literal_i.
  change (Str.starts_with_i "rgba" ("rgba" ++ w)) with true. cbv iota.
  change (Str.drop (String.length "rgba") ("rgba" ++ w)) with w.
  rewrite taken_append. cbn [String.length Str.is_empty]. rewrite Hx. reflexivity.
Qed.

Lemma digit_or_dot_digit a : Str.is_digit a = true -> Regex.digit_or_dot a = true.
Proof. unfold Regex.digit_or_dot. now intros ->. Qed.

Lemma non_digit_digit a : Str.is_digit a = true -> Regex.non_digit a = false.
Proof. unfold Regex.non_digit. now intros ->. Qed.

(** The pattern on the text of a colour with an alpha: the numerals are
    taken whole. *)
Lemma exec_rgba_text (dr dg db da : ascii) (r g b a : string) :
  Str.is_digit dr = true -> Str.forallb Str.is_digit r = true ->
  Str.is_digit dg = true -> Str.forallb Str.is_digit g = true ->
  Str.is_digit db = true -> Str.forallb Str.is_digit b = true ->
  Regex.digit_or_dot da = true -> Str.forallb Regex.digit_or_dot a = true ->
  let text := "rgba(" ++ String dr r ++ ", " ++ String dg g ++ ", " ++ String db b
                      ++ ", " ++ String da a ++ ")" in
  Regex.exec rgba_pattern text =
  Some {| Regex.matched := Str.taken text ")";
          Regex.groups := [(6%nat, String da a); (5%nat, String db b); (4%nat, String dg g);
                           (3%nat, String dr r); (1%nat, "rgba"); (2%nat, "rgba")] |}.
Proof.
  intros Hdr Hr Hdg Hg Hdb Hb Hda Ha text.
  unfold rgba_pattern. rewrite exec_bol.
  assert (Hr' := forallb_weaken _ _ digit_or_dot_digit r Hr).
  assert (Hg' := forallb_weaken _ _ digit_or_dot_digit g Hg).
  assert (Hb' := forallb_weaken _ _ digit_or_dot_digit b Hb).
  unfold text.
  change ("rgba(" ++ ?w) with ("rgba" ++ String "(" ("" ++ w)).
  apply run_name.
  change (String dr r ++ ?w) with (String dr (r ++ w)).
  apply run_gap; [reflexivity|reflexivity|now apply non_digit_digit|].
  apply run_number; [now apply digit_or_dot_digit|assumption|reflexivity|].
  change (", " ++ String dg g ++ ?w) with (String "," (" " ++ String dg (g ++ w))).
  apply run_gap; [reflexivity|reflexivity|now apply non_digit_digit|].
  apply run_number; [now apply digit_or_dot_digit|assumption|reflexivity|].
  change (", " ++ String db b ++ ?w) with (String "," (" " ++ String db (b ++ w))).
  apply run_gap; [reflexivity|reflexivity|now apply non_digit_digit|].
  change (String da a ++ ")") with (String da (a ++ ")")).
  apply run_blue; [now apply digit_or_dot_digit|assumption|assumption|assumption].
Qed.

Lemma decimal_numeral (c : Byte.byte) :
  numeral Str.is_digit (Str.of_N 10 (Canvas.channel c)) = true.
Proof. destruct c; reflexivity. Qed.

Lemma decimal_value (c : Byte.byte) :
  (Num.of_string (Str.of_N 10 (Canvas.channel c)) * 1)%float = byte_number c.
Proof. destruct c; vm_compute; reflexivity. Qed.

Lemma fraction_all_digits : forall u, Str.forallb Regex.digit_or_dot (Canvas.fraction u) = true.
Proof. induction u as [|u IH|u IH|u IH|u IH|u IH|u IH|u IH|u IH|u IH|u IH]; [reflexivity|..]; exact IH. Qed.

Lemma alpha_numeral (frac : Decimal.uint) :
  numeral Regex.digit_or_dot (Canvas.alpha_text frac) = true.
Proof.
  destruct frac; [reflexivity|..]; unfold Canvas.alpha_text;
    change ("0." ++ ?w) with (String "0" (String "." w));
    cbn [numeral Str.forallb]; change (Regex.digit_or_dot "0") with true;
    change (Regex.digit_or_dot ".") with true; cbv iota; cbn [andb];
    apply fraction_all_digits.
Qed.

Lemma translucent_fillStyle (r g b : Byte.byte) (frac : Decimal.uint) :
  fillStyle_to_rgba (Canvas.serialize (Canvas.Translucent r g b frac)) =
  Returned (rgba_result r g b (Num.of_string (Num.toFixed 2 (alpha_value frac)))).
Proof.
  pose proof (decimal_value r) as Vr. pose proof (decimal_value g) as Vg.
  pose proof (decimal_value b) as Vb.
  unfold fillStyle_to_rgba, rgba_result, alpha_value. cbn [Canvas.serialize].
  destruct (numeral_shape _ _ (decimal_numeral r)) as [dr [ur [Er [Hdr Hur]]]].
  destruct (numeral_shape _ _ (decimal_numeral g)) as [dg [ug [Eg [Hdg Hug]]]].
  destruct (numeral_shape _ _ (decimal_numeral b)) as [db [ub [Eb [Hdb Hub]]]].
  destruct (numeral_shape _ _ (alpha_numeral frac)) as [da [ua [Ea [Hda Hua]]]].
  rewrite Er, Eg, Eb in *. rewrite Ea.
  rewrite (exec_rgba_text dr dg db da ur ug ub ua) by assumption.
  cbn [Regex.groups Regex.group Nat.eqb Num.of_value].
  rewrite Vr, Vg, Vb. reflexivity.
Qed.

(** *** Rounding the alpha *)

Lemma digits2_pos_bound (m : positive) : (Zpos m < 2 ^ Zpos (digits2_pos m))%Z.
Proof.
  induction m as [m IH|m IH|]; cbn [digits2_pos];
    rewrite ?Pos2Z.inj_succ, ?Z.pow_succ_r by lia; lia.
Qed.

Lemma scaled_positive m e : let (num, den) := Num.scaled m e in (0 < num /\ 0 < den)%Z.
Proof.
  unfold Num.scaled. destruct (0 <=? e)%Z eqn:E.
  - apply Z.leb_le in E. split; [|lia].
    assert (0 < 2 ^ e)%Z by (apply Z.pow_pos_nonneg; lia). lia.
  - apply Z.leb_gt in E. split; [lia|]. apply Z.pow_pos_nonneg; lia.
Qed.

(** A number from 0 to 1 is a zero or a positive fraction at most 1. *)
Lemma unit_interval (x : JS.number) :
  in_unit_interval x = true ->
  (exists s, Prim2SF x = S754_zero s) \/
  (exists m e, Prim2SF x = S754_finite false m e /\
               let (num, den) := Num.scaled m e in (0 < num <= den)%Z).
Proof.
  unfold in_unit_interval. intros H. apply andb_prop in H. destruct H as [H0 H1].
  rewrite leb_spec in H0, H1. pose proof (Prim2SF_valid x) as V.
  change (Prim2SF 0) with (S754_zero false) in H0.
  change (Prim2SF 1) with (S754_finite false 4503599627370496 (-52)) in H1.
  destruct (Prim2SF x) as [s|s| |s m e].
  - left. now exists s.
  - destruct s; discriminate.
  - discriminate.
  - right. destruct s; [discriminate|]. exists m, e. split; [reflexivity|].
    pose proof (scaled_positive m e) as P.
    cbn [valid_binary] in V. unfold bounded, canonical_mantissa, fexp in V.
    apply andb_prop in V. destruct V as [V _]. apply Z.eqb_eq in V.
    pose proof (digits2_pos_bound m) as D.
    assert (Hm : (Zpos m < 2 ^ 53)%Z).
    { eapply Z.lt_le_trans; [exact D|]. apply Z.pow_le_mono_r; [lia|].
      unfold prec in V. lia. }
    clear V D H0.
    unfold SFleb, SFcompare in H1.
    unfold Num.scaled in *. destruct (0 <=? e)%Z eqn:E.
    + apply Z.leb_le in E. destruct (Z.compare_spec e (-52)); try lia; discriminate.
    + apply Z.leb_gt in E. split; [lia|].
      destruct (Z.compare_spec e (-52)) as [Heq|Hlt|Hgt].
      * rewrite Pos.compare_cont_spec in H1. cbn [Pos.switch_Eq] in H1.
        rewrite Heq. change (2 ^ (- -52))%Z with (Zpos 4503599627370496).
        destruct (Pos.compare_spec m 4503599627370496) as [Hm1|Hm1|Hm1].
        -- rewrite Hm1. apply Z.le_refl.
        -- apply Z.lt_le_incl. exact Hm1.
        -- discriminate.
      * assert (2 ^ 53 <= 2 ^ (- e))%Z by (apply Z.pow_le_mono_r; lia). lia.
      * discriminate.
Qed.

Lemma hundredths_check :
  all_int 101 0 (fun i =>
    Leibniz.eqb (Num.of_string (Num.fixed_digits 2 (Uint63.to_Z i)))
                (of_uint63 i / 100)%float) = true.
Proof. vm_cast_no_check (eq_refl true). Qed.

Lemma hundredths_value (n : Z) :
  (0 <= n <= 100)%Z ->
  Num.of_string (Num.fixed_digits 2 n) = (JS.of_int n / 100)%float.
Proof.
  intros H. rewrite of_int_nonneg by lia.
  pose proof (all_int_from_0 101 _ hundredths_check ltac:(cbn; lia) n ltac:(cbn; lia)) as E.
  cbv beta in E. apply Leibniz.eqb_spec in E.
  assert (Hw : (256 < wB)%Z) by reflexivity.
  rewrite to_Z_of_small in E by lia. exact E.
Qed.

(** [+x.toFixed(2)] on a number from 0 to 1 is the nearest hundredth. *)
Lemma alpha_rounded (x : JS.number) :
  in_unit_interval x = true ->
  exists n, (0 <= n <= 100)%Z /\ nearest_hundredth x n /\
            Num.of_string (Num.toFixed 2 x) = (JS.of_int n / 100)%float.
Proof.
  intros H. destruct (unit_interval x H) as [[s E]|[m [e [E B]]]].
  - exists 0%Z. split; [lia|]. split.
    + unfold nearest_hundredth, exact_value. rewrite E. lia.
    + unfold Num.toFixed. rewrite E. apply (hundredths_value 0). lia.
  - pose proof (scaled_positive m e) as P.
    unfold nearest_hundredth, exact_value, Num.toFixed. rewrite E.
    destruct (Num.scaled m e) as [num den]. destruct P as [Pn Pd].
    set (n := ((2 * num * 10 ^ Z.of_nat 2 + den) / (2 * den))%Z).
    change (10 ^ Z.of_nat 2)%Z with 100%Z in n.
    assert (Hdiv : (2 * den * n <= 2 * num * 100 + den < 2 * den * (n + 1))%Z).
    { unfold n. pose proof (Z.div_mod (2 * num * 100 + den) (2 * den) ltac:(lia)) as Q.
      pose proof (Z.mod_pos_bound (2 * num * 100 + den) (2 * den) ltac:(lia)) as R.
      nia. }
    assert (Hn : (0 <= n <= 100)%Z) by nia.
    exists n. split; [exact Hn|]. split; [lia|].
    assert (Hbig : (10 ^ 21 * den <=? num)%Z = false).
    { apply Z.leb_gt. change (10 ^ 21)%Z with 1000000000000000000000%Z. lia. }
    rewrite Hbig. cbn [append]. apply hundredths_value. exact Hn.
Qed.

(** *** The four cases *)


(** X4.  When the platform reads #000 as black, a string that is not a
    colour gives opaque black, r = g = b = 0 and a = 1, whatever colour the
    context held before; and the context is left holding black. *)
Theorem strToRGBA_unparseable (parse_color : string -> option Canvas.color)
    (ctx : Canvas.color) (str : string) :
  parse_color "#000" = Some black -> parse_color str = None ->
  strToRGBA parse_color ctx str = (Returned (Parsed.mk (Some 0) (Some 0) (Some 0) 1)%float, black).
Proof.
  intros H0 Hs. rewrite strToRGBA_fillStyle. unfold Canvas.set_fillStyle.
  rewrite H0, Hs. unfold black. rewrite opaque_fillStyle. reflexivity.
Qed.

Lemma strToRGBA_unparseable_witness :
  strToRGBA sample_parser (Canvas.Opaque Byte.x12 Byte.x34 Byte.x56) "notacolor"
  = (Returned (Parsed.mk (Some 0) (Some 0) (Some 0) 1)%float, black).
Proof.
  exact (strToRGBA_unparseable sample_parser _ "notacolor" eq_refl eq_refl).
Defined.

(** X5.  A string the platform reads as an opaque colour gives exactly the
    three 8-bit channels of that colour, read back from the #rrggbb text of
    the context, and alpha 1; the context is left holding the colour. *)
Theorem strToRGBA_opaque (parse_color : string -> option Canvas.color)
    (ctx : Canvas.color) (str : string) (r g b : Byte.byte) :
  parse_color str = Some (Canvas.Opaque r g b) ->
  strToRGBA parse_color ctx str = (Returned (rgba_result r g b 1%float), Canvas.Opaque r g b).
Proof.
  intros Hs. rewrite strToRGBA_fillStyle. unfold Canvas.set_fillStyle at 1 3.
  rewrite Hs. rewrite opaque_fillStyle. reflexivity.
Qed.

Lemma strToRGBA_opaque_witness :
  strToRGBA sample_parser black "red"
  = (Returned (Parsed.mk (Some 255) (Some 0) (Some 0) 1)%float,
     Canvas.Opaque Byte.xff Byte.x00 Byte.x00).
Proof.
  exact (strToRGBA_opaque sample_parser black "red" Byte.xff Byte.x00 Byte.x00 eq_refl).
Defined.

(** X6.  A string the platform reads as a colour with an alpha gives the
    three 8-bit channels of that colour; and when the alpha the context
    writes is a number x from 0 to 1, the alpha returned is n/100 for an
    integer n from 0 to 100 with n/100 nearest to x: the alpha is rounded
    to two decimals. *)
Theorem strToRGBA_alpha_rounded (parse_color : string -> option Canvas.color)
    (ctx : Canvas.color) (str : string) (r g b : Byte.byte) (frac : Decimal.uint) :
  parse_color str = Some (Canvas.Translucent r g b frac) ->
  in_unit_interval (alpha_value frac) = true ->
  exists n, (0 <= n <= 100)%Z /\ nearest_hundredth (alpha_value frac) n /\
    fst (strToRGBA parse_color ctx str)
    = Returned (rgba_result r g b (JS.of_int n / 100)%float).
Proof.
  intros Hs Hx. rewrite strToRGBA_fillStyle. unfold Canvas.set_fillStyle at 1.
  rewrite Hs. cbn [fst]. rewrite translucent_fillStyle.
  destruct (alpha_rounded _ Hx) as [n [Hn [Hnear E]]].
  exists n. split; [exact Hn|]. split; [exact Hnear|]. now rewrite E.
Qed.

Lemma strToRGBA_alpha_rounded_witness :
  exists n, (0 <= n <= 100)%Z /\
    fst (strToRGBA sample_parser black "rgba(0, 128, 255, 0.501961)")
    = Returned (rgba_result Byte.x00 Byte.x80 Byte.xff (JS.of_int n / 100)%float).
Proof.
  destruct (strToRGBA_alpha_rounded sample_parser black "rgba(0, 128, 255, 0.501961)"
              Byte.x00 Byte.x80 Byte.xff _ eq_refl eq_refl) as [n [Hn [_ E]]].
  exists n. split; [exact Hn|exact E].
Defined.

Lemma strToRGBA_alpha_example :
  fst (strToRGBA sample_parser black "rgba(0, 128, 255, 0.501961)")
  = Returned (Parsed.mk (Some 0) (Some 128) (Some 255) 0.5)%float.
Proof. vm_compute. reflexivity. Qed.

(** ** RGBAToHex *)

Lemma RGBAToHex_parts fd settings (r g b a : JS.number) :
  RGBAToHex fd settings (RGBA.mk r g b a) =
  "#" ++ channel_text fd r ++ channel_text fd g ++ channel_text fd b ++
  (if Settings.alpha settings && ((a <? 1)%float || Settings.forceAlpha settings)
   then alpha_byte_text a else "").
Proof. reflexivity. Qed.

Lemma channel_check fd :
  all_int 256 0 (fun i =>
    String.eqb (channel_text fd (of_uint63 i)) (hex_byte (Uint63.to_Z i))) = true.
Proof. vm_cast_no_check (eq_refl true). Qed.

Lemma alpha_check :
  all_int 101 0 (fun k =>
    String.eqb (alpha_byte_text (of_uint63 k / 100)%float) (hex_byte (255 * Uint63.to_Z k / 100))
    && Bool.eqb (of_uint63 k / 100 <? 1)%float (Uint63.to_Z k <? 100)%Z) = true.
Proof. vm_cast_no_check (eq_refl true). Qed.

Lemma channel_hex fd (z : Z) :
  (0 <= z <= 255)%Z -> channel_text fd (JS.of_int z) = hex_byte z.
Proof.
  intros H. rewrite of_int_nonneg by lia.
  pose proof (all_int_from_0 256 _ (channel_check fd) ltac:(cbn; lia) z ltac:(cbn; lia)) as E.
  cbv beta in E. apply String.eqb_eq in E. rewrite E.
  assert (Hw : (256 < wB)%Z) by reflexivity.
  rewrite to_Z_of_small by lia. reflexivity.
Qed.

Lemma alpha_hex (k : Z) :
  (0 <= k <= 100)%Z ->
  alpha_byte_text (JS.of_int k / 100)%float = hex_byte (255 * k / 100) /\
  (JS.of_int k / 100 <? 1)%float = (k <? 100)%Z.
Proof.
  intros H. rewrite of_int_nonneg by lia.
  pose proof (all_int_from_0 101 _ alpha_check ltac:(cbn; lia) k ltac:(cbn; lia)) as E.
  cbv beta in E. apply andb_prop in E. destruct E as [E1 E2].
  apply String.eqb_eq in E1. apply Bool.eqb_prop in E2.
  assert (Hw : (256 < wB)%Z) by reflexivity.
  rewrite to_Z_of_small in E1, E2 by lia. split; assumption.
Qed.

Lemma hex_notation_digits (settings : Settings.t) (r g b k : Z)
    (fd : N -> JS.number -> string) :
  (0 <= r <= 255)%Z -> (0 <= g <= 255)%Z -> (0 <= b <= 255)%Z -> (0 <= k <= 100)%Z ->
  RGBAToHex fd settings
    (RGBA.mk (JS.of_int r) (JS.of_int g) (JS.of_int b) (JS.of_int k / 100)%float)
  = hex_notation settings r g b k.
Proof.
  intros Hr Hg Hb Hk. rewrite RGBAToHex_parts.
  rewrite !channel_hex by assumption.
  destruct (alpha_hex k Hk) as [E1 E2]. rewrite E1, E2. reflexivity.
Qed.

(** X7.  For integer channels from 0 to 255 and an alpha of k hundredths,
    k from 0 to 100, RGBAToHex writes # and two lowercase hexadecimal
    digits for each of r, g and b, whatever the implementation does for the
    digits of a fraction; it adds two digits for the byte floor(255 k/100)
    exactly when the alpha setting is on and k < 100 or alpha is forced: 7
    characters or 9. *)
Theorem RGBAToHex_digits (fraction_digits : N -> JS.number -> string)
    (settings : Settings.t) (r g b k : Z) :
  (0 <= r <= 255)%Z -> (0 <= g <= 255)%Z -> (0 <= b <= 255)%Z -> (0 <= k <= 100)%Z ->
  let text := RGBAToHex fraction_digits settings
      (RGBA.mk (JS.of_int r) (JS.of_int g) (JS.of_int b) (JS.of_int k / 100)%float) in
  let with_alpha :=
    Settings.alpha settings && ((k <? 100)%Z || Settings.forceAlpha settings) in
  text = "#" ++ hex_byte r ++ hex_byte g ++ hex_byte b
             ++ (if with_alpha then hex_byte (255 * k / 100) else "")
  /\ String.length text = (if with_alpha then 9 else 7)%nat.
Proof.
  intros Hr Hg Hb Hk. cbv zeta. rewrite hex_notation_digits by assumption.
  unfold hex_notation. split; [reflexivity|].
  destruct (Settings.alpha settings && ((k <? 100)%Z || Settings.forceAlpha settings));
    reflexivity.
Qed.

Lemma RGBAToHex_digits_witness :
  RGBAToHex (fun _ _ => "") (Settings.mk "hex" true true) (RGBA.mk 255 0 0 1)%float = "#ff0000ff".
Proof.
  exact (proj1 (RGBAToHex_digits (fun _ _ => "") (Settings.mk "hex" true true) 255 0 0 100
                  ltac:(lia) ltac:(lia) ltac:(lia) ltac:(lia))).
Defined.

Lemma wide_check fd :
  all_int 768 256 (fun i =>
    (String.length (channel_text fd (of_uint63 i)) =? 3)%nat) = true.
Proof. vm_cast_no_check (eq_refl true). Qed.

Lemma negative_check fd :
  all_int 255 1 (fun i =>
    Str.starts_with "0-" (channel_text fd (- of_uint63 i)%float)) = true.
Proof. vm_cast_no_check (eq_refl true). Qed.

(** X8.  RGBAToHex does not clamp a channel: an integer from 256 to 1023
    is written with three digits, and an integer from -255 to -1 as 0 and
    a minus sign before its digits, so the text is no hex colour. *)
Theorem RGBAToHex_unclamped (fraction_digits : N -> JS.number -> string) (z : Z) :
  ((256 <= z <= 1023)%Z ->
     String.length (channel_text fraction_digits (JS.of_int z)) = 3%nat) /\
  ((-255 <= z <= -1)%Z ->
     Str.starts_with "0-" (channel_text fraction_digits (JS.of_int z)) = true) /\
  (forall settings g b a,
     RGBAToHex fraction_digits settings (RGBA.mk (JS.of_int z) g b a) =
     "#" ++ channel_text fraction_digits (JS.of_int z) ++ channel_text fraction_digits g
         ++ channel_text fraction_digits b
         ++ (if Settings.alpha settings && ((a <? 1)%float || Settings.forceAlpha settings)
             then alpha_byte_text a else "")).
Proof.
  assert (Hw : (1024 < wB)%Z) by reflexivity.
  split; [|split].
  - intros H. rewrite of_int_nonneg by lia.
    pose proof (all_int_spec 768 256 _ (wide_check fraction_digits)) as E.
    change (Uint63.to_Z 256) with 256%Z in E.
    specialize (E ltac:(cbn; lia) z ltac:(cbn; lia)). cbv beta in E.
    now apply Nat.eqb_eq in E.
  - intros H. destruct z as [|p|p]; try lia.
    pose proof (all_int_spec 255 1 _ (negative_check fraction_digits)) as E.
    change (Uint63.to_Z 1) with 1%Z in E.
    specialize (E ltac:(cbn; lia) (Zpos p) ltac:(cbn; lia)). cbv beta in E.
    exact E.
  - intros. apply RGBAToHex_parts.
Qed.

Lemma RGBAToHex_unclamped_witness :
  String.length (channel_text (fun _ _ => "") (JS.of_int 256)) = 3%nat.
Proof. exact (proj1 (RGBAToHex_unclamped (fun _ _ => "") 256) ltac:(lia)). Defined.

(** ** RGBAToStr, HSLAToStr and getColorFormatFromStr *)

Lemma functional3 name x y z :
  functional name [x; y; z] = name ++ "(" ++ x ++ ", " ++ y ++ ", " ++ z ++ ")".
Proof. unfold functional. cbn [Str.join]. now rewrite !append_assoc. Qed.

Lemma functional4 name x y z w :
  functional name [x; y; z; w] =
  name ++ "(" ++ x ++ ", " ++ y ++ ", " ++ z ++ ", " ++ w ++ ")".
Proof. unfold functional. cbn [Str.join]. now rewrite !append_assoc. Qed.

Lemma RGBAToStr_form (settings : Settings.t) (rgba : RGBA.t) :
  RGBAToStr settings rgba =
  if alpha_suppressed settings (RGBA.a rgba)
  then functional "rgb" [Num.to_string (RGBA.r rgba); Num.to_string (RGBA.g rgba);
                         Num.to_string (RGBA.b rgba)]
  else functional "rgba" [Num.to_string (RGBA.r rgba); Num.to_string (RGBA.g rgba);
                          Num.to_string (RGBA.b rgba); Num.to_string (RGBA.a rgba)].
Proof.
  unfold RGBAToStr. fold (alpha_suppressed settings (RGBA.a rgba)).
  rewrite functional3, functional4. reflexivity.
Qed.

Lemma HSLAToStr_form (settings : Settings.t) (hsla : HSLA.t) :
  HSLAToStr settings hsla =
  if alpha_suppressed settings (HSLA.a hsla)
  then functional "hsl" [Num.to_string (HSLA.h hsla); Num.to_string (HSLA.s hsla) ++ "%";
                         Num.to_string (HSLA.l hsla) ++ "%"]
  else functional "hsla" [Num.to_string (HSLA.h hsla); Num.to_string (HSLA.s hsla) ++ "%";
                          Num.to_string (HSLA.l hsla) ++ "%"; Num.to_string (HSLA.a hsla)].
Proof.
  unfold HSLAToStr. fold (alpha_suppressed settings (HSLA.a hsla)).
  rewrite functional3, functional4, !append_assoc. reflexivity.
Qed.

(** X9.  getColorFormatFromStr tells the three writers apart: it gives rgb
    for every text of RGBAToStr, hsl for every text of HSLAToStr and hex for
    every text of RGBAToHex, whatever the colour and the settings. *)
Theorem getColorFormatFromStr_writers (fraction_digits : N -> JS.number -> string)
    (settings : Settings.t) (rgba : RGBA.t) (hsla : HSLA.t) :
  getColorFormatFromStr (RGBAToStr settings rgba) = "rgb" /\
  getColorFormatFromStr (HSLAToStr settings hsla) = "hsl" /\
  getColorFormatFromStr (RGBAToHex fraction_digits settings rgba) = "hex".
Proof.
  split; [|split].
  - unfold RGBAToStr. destruct (_ || _); reflexivity.
  - unfold HSLAToStr. destruct (_ || _); reflexivity.
  - destruct rgba as [r g b a]. rewrite RGBAToHex_parts.
    unfold getColorFormatFromStr.
    change ("#" ++ ?w) with (String "#" w). cbv zeta.
    destruct (channel_text fraction_digits r ++ _) as [|c1 [|c2 w]].
    + reflexivity.
    + cbn [Str.take Str.lower]. change (Str.to_lower "#") with "#"%char.
      cbn [String.eqb]. reflexivity.
    + cbn [Str.take Str.lower]. change (Str.to_lower "#") with "#"%char.
      cbn [String.eqb]. reflexivity.
Qed.

Lemma lower_upper (c : ascii) :
  Ascii.eqb (Str.to_lower c) "r" = Ascii.eqb (Str.to_upper c) "R" /\
  Ascii.eqb (Str.to_lower c) "g" = Ascii.eqb (Str.to_upper c) "G" /\
  Ascii.eqb (Str.to_lower c) "b" = Ascii.eqb (Str.to_upper c) "B" /\
  Ascii.eqb (Str.to_lower c) "h" = Ascii.eqb (Str.to_upper c) "H" /\
  Ascii.eqb (Str.to_lower c) "s" = Ascii.eqb (Str.to_upper c) "S" /\
  Ascii.eqb (Str.to_lower c) "l" = Ascii.eqb (Str.to_upper c) "L".
Proof. destruct c as [[] [] [] [] [] [] [] []]; repeat split. Qed.

Lemma lower_starts_with_i (a b c : ascii) (s : string) :
  In (a, b, c) [("r", "g", "b"); ("h", "s", "l")]%char ->
  String.eqb (Str.lower (Str.take 3 s)) (String a (String b (String c ""))) =
  Str.starts_with_i (String a (String b (String c ""))) s.
Proof.
  intros H.
  assert (E : forall x,
             Ascii.eqb (Str.to_lower x) a = Ascii.eqb (Str.to_upper x) (Str.to_upper a) /\
             Ascii.eqb (Str.to_lower x) b = Ascii.eqb (Str.to_upper x) (Str.to_upper b) /\
             Ascii.eqb (Str.to_lower x) c = Ascii.eqb (Str.to_upper x) (Str.to_upper c)).
  { intros x. destruct (lower_upper x) as [R [G [B [Hh [S L]]]]].
    destruct H as [H|[H|[]]]; injection H as <- <- <-; repeat split; assumption. }
  destruct s as [|c1 [|c2 [|c3 w]]]; cbn [Str.take Str.lower String.eqb Str.starts_with_i].
  - reflexivity.
  - rewrite (proj1 (E c1)). destruct (Ascii.eqb _ _); reflexivity.
  - rewrite (proj1 (E c1)), (proj1 (proj2 (E c2))).
    destruct (Ascii.eqb (Str.to_upper c1) _); [|reflexivity].
    destruct (Ascii.eqb (Str.to_upper c2) _); reflexivity.
  - rewrite (proj1 (E c1)), (proj1 (proj2 (E c2))), (proj2 (proj2 (E c3))).
    destruct (Ascii.eqb (Str.to_upper c1) _); [|reflexivity].
    destruct (Ascii.eqb (Str.to_upper c2) _); [|reflexivity].
    destruct (Ascii.eqb (Str.to_upper c3) _); reflexivity.
Qed.

(** X10.  getColorFormatFromStr only looks at the first three characters,
    without regard to letter case: it gives rgb, in lower case, when they
    spell rgb, hsl when they spell hsl, and hex for every other string, the
    empty one included. *)
Theorem getColorFormatFromStr_prefix (str : string) :
  getColorFormatFromStr str =
  if Str.starts_with_i "rgb" str then "rgb"
  else if Str.starts_with_i "hsl" str then "hsl"
  else "hex".
Proof.
  unfold getColorFormatFromStr. cbv zeta.
  rewrite <- (lower_starts_with_i "r" "g" "b" str) by (left; reflexivity).
  rewrite <- (lower_starts_with_i "h" "s" "l" str) by (right; left; reflexivity).
  destruct (String.eqb_spec (Str.lower (Str.take 3 str)) "rgb") as [->|_]; [reflexivity|].
  destruct (String.eqb_spec (Str.lower (Str.take 3 str)) "hsl") as [->|_]; reflexivity.
Qed.

(** ** Round trips through the canvas *)

Lemma channel_range (c : Byte.byte) : (0 <= Z.of_N (Canvas.channel c) <= 255)%Z.
Proof. unfold Canvas.channel. pose proof (Byte.to_N_bounded c). lia. Qed.

Lemma hex_byte_channel (c : Byte.byte) :
  hex_byte (Z.of_N (Canvas.channel c)) = Canvas.hex_digits c.
Proof. destruct c; reflexivity. Qed.

Lemma to_string_channel (c : Byte.byte) :
  Num.to_string (byte_number c) = Str.of_N 10 (Canvas.channel c).
Proof. destruct c; vm_compute; reflexivity. Qed.

Lemma RGBAToHex_opaque fd settings (r g b : Byte.byte) :
  RGBAToHex fd settings (RGBA.mk (byte_number r) (byte_number g) (byte_number b) 1%float)
  = Canvas.serialize (Canvas.Opaque r g b)
    ++ (if Settings.alpha settings && Settings.forceAlpha settings then "ff" else "").
Proof.
  unfold byte_number. change 1%float with (JS.of_int 100 / 100)%float.
  rewrite hex_notation_digits by (try apply channel_range; lia).
  unfold hex_notation. rewrite !hex_byte_channel. cbn [Canvas.serialize].
  change (100 <? 100)%Z with false. cbn [orb].
  change (hex_byte (255 * 100 / 100)) with "ff".
  rewrite !append_assoc. reflexivity.
Qed.

Lemma hundredths_alpha_check :
  all_int 100 0 (fun k =>
    Leibniz.eqb (Num.of_string (Num.toFixed 2 (alpha_value (hundredths (Uint63.to_Z k)))))
                (of_uint63 k / 100)%float
    && String.eqb (Num.to_string (of_uint63 k / 100)%float)
                  (Canvas.alpha_text (hundredths (Uint63.to_Z k)))
    && negb (PrimFloat.eqb (of_uint63 k / 100) 1)) = true.
Proof. vm_cast_no_check (eq_refl true). Qed.

Lemma hundredths_alpha (k : Z) :
  (0 <= k < 100)%Z ->
  Num.of_string (Num.toFixed 2 (alpha_value (hundredths k))) = (JS.of_int k / 100)%float /\
  Num.to_string (JS.of_int k / 100)%float = Canvas.alpha_text (hundredths k) /\
  PrimFloat.eqb (JS.of_int k / 100) 1 = false.
Proof.
  intros H. rewrite of_int_nonneg by lia.
  pose proof (all_int_from_0 100 _ hundredths_alpha_check ltac:(cbn; lia) k ltac:(cbn; lia)) as E.
  cbv beta in E. apply andb_prop in E. destruct E as [E E3].
  apply andb_prop in E. destruct E as [E1 E2].
  apply Leibniz.eqb_spec in E1. apply String.eqb_eq in E2. apply negb_true_iff in E3.
  assert (Hw : (256 < wB)%Z) by reflexivity.
  rewrite to_Z_of_small in E1, E2 by lia. repeat split; assumption.
Qed.

Lemma RGBAToStr_translucent settings (r g b : Byte.byte) (k : Z) :
  (0 <= k < 100)%Z -> Settings.alpha settings = true ->
  RGBAToStr settings
    (RGBA.mk (byte_number r) (byte_number g) (byte_number b) (JS.of_int k / 100)%float)
  = Canvas.serialize (Canvas.Translucent r g b (hundredths k)).
Proof.
  intros Hk Ha. destruct (hundredths_alpha k Hk) as [_ [E2 E3]].
  unfold RGBAToStr. cbn [RGBA.r RGBA.g RGBA.b RGBA.a].
  rewrite Ha, E3, E2, !to_string_channel. reflexivity.
Qed.

Lemma fillStyle_canvas (c : Canvas.color) :
  fillStyle_to_rgba (Canvas.serialize c) = Returned (canvas_rgba c).
Proof. destruct c; [apply opaque_fillStyle|apply translucent_fillStyle]. Qed.

Lemma strToRGBA_held parse_color ctx str :
  strToRGBA parse_color ctx str =
  (Returned (canvas_rgba (held parse_color ctx str)), held parse_color ctx str).
Proof. rewrite strToRGBA_fillStyle. fold (held parse_color ctx str). now rewrite fillStyle_canvas. Qed.

(** X11.  Hex round trip: when the platform reads a string as an opaque
    colour, RGBAToHex of what strToRGBA returns is the #rrggbb text the
    context wrote for that colour, followed by ff only when alpha is
    enabled and forced. *)
Theorem hex_round_trip (parse_color : string -> option Canvas.color)
    (fraction_digits : N -> JS.number -> string) (settings : Settings.t)
    (ctx : Canvas.color) (str : string) (r g b : Byte.byte) :
  parse_color str = Some (Canvas.Opaque r g b) ->
  exists rgba,
    fst (strToRGBA parse_color ctx str) = Returned rgba /\
    RGBAToHex fraction_digits settings (numbers rgba)
    = Canvas.serialize (Canvas.Opaque r g b)
      ++ (if Settings.alpha settings && Settings.forceAlpha settings then "ff" else "").
Proof.
  intros Hs. exists (rgba_result r g b 1%float). split.
  - rewrite strToRGBA_fillStyle. unfold Canvas.set_fillStyle at 1. rewrite Hs.
    apply opaque_fillStyle.
  - apply RGBAToHex_opaque.
Qed.

Lemma hex_round_trip_witness :
  exists rgba,
    fst (strToRGBA sample_parser black "#1a2b3c") = Returned rgba /\
    RGBAToHex (fun _ _ => "") Settings.defaults (numbers rgba) = "#1a2b3c".
Proof.
  exact (hex_round_trip sample_parser (fun _ _ => "") Settings.defaults black "#1a2b3c"
           Byte.x1a Byte.x2b Byte.x3c eq_refl).
Defined.

(** X12.  Text round trip: when the platform reads a string as a colour
    whose alpha is k hundredths, 0 <= k < 100, written without a zero at
    the end, and the alpha setting is on, RGBAToStr of what strToRGBA
    returns is the rgba(r, g, b, a) text the context wrote for that
    colour. *)
Theorem rgba_round_trip (parse_color : string -> option Canvas.color)
    (settings : Settings.t) (ctx : Canvas.color) (str : string)
    (r g b : Byte.byte) (k : Z) :
  (0 <= k < 100)%Z -> Settings.alpha settings = true ->
  parse_color str = Some (Canvas.Translucent r g b (hundredths k)) ->
  exists rgba,
    fst (strToRGBA parse_color ctx str) = Returned rgba /\
    RGBAToStr settings (numbers rgba)
    = Canvas.serialize (Canvas.Translucent r g b (hundredths k)).
Proof.
  intros Hk Ha Hs. destruct (hundredths_alpha k Hk) as [E1 _].
  exists (rgba_result r g b (JS.of_int k / 100)%float). split.
  - rewrite strToRGBA_fillStyle. unfold Canvas.set_fillStyle at 1. rewrite Hs.
    cbn [fst]. rewrite translucent_fillStyle, E1. reflexivity.
  - apply RGBAToStr_translucent; assumption.
Qed.

Lemma rgba_round_trip_witness :
  exists rgba,
    fst (strToRGBA sample_parser black "rgba(10, 20, 30, 0.25)") = Returned rgba /\
    RGBAToStr Settings.defaults (numbers rgba) = "rgba(10, 20, 30, 0.25)".
Proof.
  exact (rgba_round_trip sample_parser Settings.defaults black "rgba(10, 20, 30, 0.25)"
           Byte.x0a Byte.x14 Byte.x1e 25 ltac:(lia) eq_refl eq_refl).
Defined.

(** ** setColorFromStr and updateColor *)

Lemma updateColor_shows fd settings (st : Picker.t) (c : Canvas.color) (hsva : HSVA.t) :
  updateColor fd settings st (Some (canvas_rgba c)) (Some hsva) =
  (Returned tt,
   Picker.mk (Picker.ctx st)
     (Current.mk (Some (RGBA.r (canvas_numbers c))) (Some (RGBA.g (canvas_numbers c)))
                 (Some (RGBA.b (canvas_numbers c)))
                 (HSVA.h hsva) (HSVA.s hsva) (HSVA.v hsva) (HSVA.a hsva))
     (Picker.currentFormat st)
     (value_text fd settings (Picker.currentFormat st) (Picker.colorValue st)
        (RGBA.mk (RGBA.r (canvas_numbers c)) (RGBA.g (canvas_numbers c))
                 (RGBA.b (canvas_numbers c)) (HSVA.a hsva)) hsva)
     (Picker.styleColor st)).
Proof. destruct c; reflexivity. Qed.

Lemma setColorFromStr_showing parse_color gcs fd settings (st : Picker.t) (str : string) :
  setColorFromStr parse_color gcs fd settings st str =
  (Returned tt, showing fd settings st (held parse_color (Picker.ctx st) (full_string gcs str))).
Proof.
  unfold setColorFromStr. fold (full_string gcs str).
  rewrite strToRGBA_held.
  set (c := held parse_color (Picker.ctx st) (full_string gcs str)).
  rewrite updateColor_shows. reflexivity.
Qed.

Lemma held_parsed parse_color ctx s c :
  parse_color s = Some c -> held parse_color ctx s = c.
Proof. intros H. unfold held, Canvas.set_fillStyle at 1. now rewrite H. Qed.

Lemma held_unparsed parse_color ctx s :
  parse_color "#000" = Some black -> parse_color s = None -> held parse_color ctx s = black.
Proof. intros H0 H. unfold held, Canvas.set_fillStyle. now rewrite H, H0. Qed.

Lemma held_again parse_color ctx s :
  held parse_color (held parse_color ctx s) s = held parse_color ctx s.
Proof.
  unfold held, Canvas.set_fillStyle.
  destruct (parse_color s); [reflexivity|]. destruct (parse_color "#000"); reflexivity.
Qed.

Lemma value_text_again fd settings cf old x hsva :
  value_text fd settings cf (value_text fd settings cf old x hsva) x hsva
  = value_text fd settings cf old x hsva.
Proof.
  unfold value_text.
  destruct (String.eqb (Settings.format settings) "mixed").
  - destruct (PrimFloat.eqb (RGBA.a x) 1); reflexivity.
  - destruct (String.eqb (Settings.format settings) "auto").
    + destruct cf as [f|]; [|reflexivity].
      destruct (String.eqb f "hex"); [reflexivity|].
      destruct (String.eqb f "rgb"); [reflexivity|].
      destruct (String.eqb f "hsl"); reflexivity.
    + destruct (String.eqb (Settings.format settings) "hex"); [reflexivity|].
      destruct (String.eqb (Settings.format settings) "rgb"); [reflexivity|].
      destruct (String.eqb (Settings.format settings) "hsl"); reflexivity.
Qed.



(** X14.  With the format hex, a string that stands for an opaque colour
    leaves in the value field the #rrggbb text the context writes for that
    colour, followed by ff only when alpha is enabled and forced. *)
Theorem setColorFromStr_hex (parse_color : string -> option Canvas.color)
    (getComputedStyle : option (string -> option string))
    (fraction_digits : N -> JS.number -> string) (settings : Settings.t)
    (st : Picker.t) (str : string) (r g b : Byte.byte) :
  Settings.format settings = "hex" ->
  parse_color (full_string getComputedStyle str) = Some (Canvas.Opaque r g b) ->
  Picker.colorValue
    (snd (setColorFromStr parse_color getComputedStyle fraction_digits settings st str))
  = Some (Canvas.serialize (Canvas.Opaque r g b)
          ++ (if Settings.alpha settings && Settings.forceAlpha settings then "ff" else "")).
Proof.
  intros Hf Hs. rewrite setColorFromStr_showing. cbn [snd].
  rewrite (held_parsed _ _ _ _ Hs). unfold showing. cbv zeta. cbn [Picker.colorValue].
  unfold value_text. rewrite Hf. cbn [String.eqb Ascii.eqb Bool.eqb].
  change (canvas_numbers (Canvas.Opaque r g b))
    with (RGBA.mk (byte_number r) (byte_number g) (byte_number b) 1%float).
  cbn [RGBA.r RGBA.g RGBA.b].
  change (HSVA.a (RGBAtoHSVA (RGBA.mk (byte_number r) (byte_number g) (byte_number b) 1%float)))
    with 1%float.
  now rewrite RGBAToHex_opaque.
Qed.

Lemma setColorFromStr_hex_witness :
  Picker.colorValue
    (snd (setColorFromStr sample_parser None (fun _ _ => "") Settings.defaults
            (Picker.mk black Current.initial None None None) "#1a2b3c"))
  = Some "#1a2b3c".
Proof.
  exact (setColorFromStr_hex sample_parser None (fun _ _ => "") Settings.defaults
           (Picker.mk black Current.initial None None None) "#1a2b3c"
           Byte.x1a Byte.x2b Byte.x3c eq_refl eq_refl).
Defined.



(** X16.  When the platform reads #000 as black and the string handed to
    the context is no colour, the picker shows black: the context holds
    black, currentColor is r = g = b = 0, h = s = v = 0 and a = 1, the
    hue swatch is hsl(0, 100%, 50%), and with the format hex the value
    field reads #000000, followed by ff only when alpha is enabled and
    forced. *)
Theorem setColorFromStr_unparseable (parse_color : string -> option Canvas.color)
    (getComputedStyle : option (string -> option string))
    (fraction_digits : N -> JS.number -> string) (settings : Settings.t)
    (st : Picker.t) (str : string) :
  parse_color "#000" = Some black ->
  parse_color (full_string getComputedStyle str) = None ->
  let st' := snd (setColorFromStr parse_color getComputedStyle fraction_digits settings st str) in
  Picker.ctx st' = black /\
  Picker.currentColor st' = Current.initial /\
  Picker.styleColor st' = Some "hsl(0, 100%, 50%)" /\
  (Settings.format settings = "hex" ->
   Picker.colorValue st' =
   Some ("#000000" ++ (if Settings.alpha settings && Settings.forceAlpha settings
                       then "ff" else ""))).
Proof.
  intros H0 Hs. cbv zeta. rewrite setColorFromStr_showing. cbn [snd].
  rewrite (held_unparsed _ _ _ H0 Hs). unfold showing. cbv zeta.
  change (canvas_numbers black) with (RGBA.mk 0 0 0 1)%float.
  change (RGBAtoHSVA (RGBA.mk 0 0 0 1)%float) with (HSVA.mk 0 0 0 1)%float.
  cbn [RGBA.r RGBA.g RGBA.b HSVA.h HSVA.s HSVA.v HSVA.a
       Picker.ctx Picker.currentColor Picker.styleColor Picker.colorValue].
  split; [reflexivity|]. split; [reflexivity|]. split; [reflexivity|].
  intros Hf. unfold value_text. rewrite Hf. cbn [String.eqb Ascii.eqb Bool.eqb].
  change (RGBA.mk 0 0 0 1)%float
    with (RGBA.mk (byte_number Byte.x00) (byte_number Byte.x00) (byte_number Byte.x00) 1%float).
  now rewrite RGBAToHex_opaque.
Qed.

Lemma setColorFromStr_unparseable_witness :
  Picker.colorValue
    (snd (setColorFromStr sample_parser None (fun _ _ => "") Settings.defaults
            (Picker.mk (Canvas.Opaque Byte.x12 Byte.x34 Byte.x56) Current.initial None None None)
            "notacolor"))
  = Some "#000000".
Proof.
  exact (proj2 (proj2 (proj2
           (setColorFromStr_unparseable sample_parser None (fun _ _ => "") Settings.defaults
              (Picker.mk (Canvas.Opaque Byte.x12 Byte.x34 Byte.x56) Current.initial None None None)
              "notacolor" eq_refl eq_refl))) eq_refl).
Defined.


Lemma full_string_reference gcs str name :
  is_var_reference str name -> full_string gcs str = of_nullable (getCSSVar gcs name).
Proof.
  intros H. apply var_name_reference in H. unfold full_string.
  rewrite checkIfCSSVar_var_name, H. reflexivity.
Qed.

Lemma full_string_plain gcs str :
  CSSVar.isCSSVar (checkIfCSSVar str) = false -> full_string gcs str = str.
Proof. intros H. unfold full_string. rewrite H. reflexivity. Qed.

Lemma name_is_plain (x : string) : CSSVar.isCSSVar (checkIfCSSVar ("--" ++ x)) = false.
Proof. rewrite checkIfCSSVar_var_name. reflexivity. Qed.

Lemma setColorFromStr_same parse_color gcs fd settings st str str' :
  full_string gcs str = full_string gcs str' ->
  setColorFromStr parse_color gcs fd settings st str
  = setColorFromStr parse_color gcs fd settings st str'.
Proof. intros H. rewrite !setColorFromStr_showing, H. reflexivity. Qed.

(** X17.  A reference to a CSS variable is shown as the value of the
    variable: when the property has a value that is not white space only,
    and that value is not itself such a reference, setColorFromStr does
    with the reference exactly what it does with the trimmed value; when
    the property has no value, or only white space, it does what it does
    with the name of the variable. *)
Theorem setColorFromStr_variable (parse_color : string -> option Canvas.color)
    (getPropertyValue : string -> option string)
    (fraction_digits : N -> JS.number -> string) (settings : Settings.t)
    (st : Picker.t) (str name : string) :
  is_var_reference str name ->
  let set := setColorFromStr parse_color (Some getPropertyValue) fraction_digits settings st in
  (forall v, getPropertyValue name = Some v -> Str.trim v <> "" ->
     CSSVar.isCSSVar (checkIfCSSVar (Str.trim v)) = false ->
     set str = set (Str.trim v)) /\
  (forall v, getPropertyValue name = Some v -> Str.trim v = "" -> set str = set name) /\
  (getPropertyValue name = None -> set str = set name).
Proof.
  intros H. cbv zeta.
  assert (Hname : full_string (Some getPropertyValue) name = name).
  { destruct H as [f [x [_ [_ [-> _]]]]]. apply full_string_plain, name_is_plain. }
  pose proof (full_string_reference (Some getPropertyValue) str name H) as E.
  split; [|split].
  - intros v Hv Hne Hplain. apply setColorFromStr_same.
    rewrite E, (full_string_plain _ _ Hplain).
    unfold getCSSVar. rewrite Hv. cbn [option_map of_nullable].
    destruct (Str.trim v); [contradiction|reflexivity].
  - intros v Hv He. apply setColorFromStr_same. rewrite E, Hname.
    unfold getCSSVar. rewrite Hv. cbn [option_map of_nullable]. rewrite He. reflexivity.
  - intros Hv. apply setColorFromStr_same. rewrite E, Hname.
    unfold getCSSVar. rewrite Hv. reflexivity.
Qed.

Lemma setColorFromStr_variable_witness :
  let getPropertyValue (n : string) :=
    if String.eqb n "--brand" then Some " #1a2b3c " else Some "" in
  setColorFromStr sample_parser (Some getPropertyValue) (fun _ _ => "") Settings.defaults
    (Picker.mk black Current.initial None None None) "var(--brand)"
  = setColorFromStr sample_parser (Some getPropertyValue) (fun _ _ => "") Settings.defaults
      (Picker.mk black Current.initial None None None) "#1a2b3c".
Proof.
  intros getPropertyValue.
  apply (proj1 (setColorFromStr_variable sample_parser getPropertyValue (fun _ _ => "")
                  Settings.defaults (Picker.mk black Current.initial None None None)
                  "var(--brand)" "--brand"
                  ltac:(exists "var", "brand"; repeat split; discriminate))
           " #1a2b3c ").
  - reflexivity.
  - discriminate.
  - reflexivity.
Defined.

(** X18.  updateColor writes the value field only for the formats hex, rgb
    and hsl, mixed standing for hex or rgb and auto for the current format:
    with any other format, or with auto when no current format is set,
    setColorFromStr leaves the text of the value field as it was. *)
Theorem setColorFromStr_keeps_value (parse_color : string -> option Canvas.color)
    (getComputedStyle : option (string -> option string))
    (fraction_digits : N -> JS.number -> string) (settings : Settings.t)
    (st : Picker.t) (str : string) :
  let st' := snd (setColorFromStr parse_color getComputedStyle fraction_digits settings st str) in
  (~ In (Settings.format settings) ["hex"; "rgb"; "hsl"; "mixed"; "auto"] ->
     Picker.colorValue st' = Picker.colorValue st) /\
  (Settings.format settings = "auto" -> Picker.currentFormat st = None ->
     Picker.colorValue st' = Picker.colorValue st).
Proof.
  cbv zeta. rewrite setColorFromStr_showing. cbn [snd]. unfold showing. cbv zeta.
  cbn [Picker.colorValue]. unfold value_text. split.
  - intros H. cbn [In] in H.
    destruct (String.eqb_spec (Settings.format settings) "mixed") as [E|_];
      [exfalso; apply H; rewrite E; intuition|].
    destruct (String.eqb_spec (Settings.format settings) "auto") as [E|_];
      [exfalso; apply H; rewrite E; intuition|].
    destruct (String.eqb_spec (Settings.format settings) "hex") as [E|_];
      [exfalso; apply H; rewrite E; intuition|].
    destruct (String.eqb_spec (Settings.format settings) "rgb") as [E|_];
      [exfalso; apply H; rewrite E; intuition|].
    destruct (String.eqb_spec (Settings.format settings) "hsl") as [E|_];
      [exfalso; apply H; rewrite E; intuition|].
    reflexivity.
  - intros -> ->. reflexivity.
Qed.

Lemma setColorFromStr_keeps_value_witness :
  Picker.colorValue
    (snd (setColorFromStr sample_parser None (fun _ _ => "") (Settings.mk "auto" true false)
            (Picker.mk black Current.initial None (Some "kept") None) "red"))
  = Some "kept".
Proof.
  exact (proj2 (setColorFromStr_keeps_value sample_parser None (fun _ _ => "")
                  (Settings.mk "auto" true false)
                  (Picker.mk black Current.initial None (Some "kept") None) "red")
           eq_refl eq_refl).
Defined.

Lemma hsva_eta (q : HSVA.t) : HSVA.mk (HSVA.h q) (HSVA.s q) (HSVA.v q) (HSVA.a q) = q.
Proof. destruct q; reflexivity. Qed.

Lemma showing_ctx fd settings st c : Picker.ctx (showing fd settings st c) = c.
Proof. reflexivity. Qed.

Lemma showing_again fd settings st c :
  showing fd settings (showing fd settings st c) c = showing fd settings st c.
Proof.
  unfold showing. cbv zeta. cbn [Picker.currentFormat Picker.colorValue].
  now rewrite value_text_again.
Qed.

Lemma updateColor_none fd settings ctx (r g b h s v a : JS.number) cf old sc :
  updateColor fd settings
    (Picker.mk ctx (Current.mk (Some r) (Some g) (Some b) h s v a) cf old sc) None None
  = (Returned tt,
     Picker.mk ctx (Current.mk (Some r) (Some g) (Some b) h s v a) cf
       (value_text fd settings cf old (RGBA.mk r g b a) (HSVA.mk h s v a)) sc).
Proof. reflexivity. Qed.

Lemma updateColor_again fd settings st c :
  updateColor fd settings (showing fd settings st c) None None
  = (Returned tt, showing fd settings st c).
Proof.
  unfold showing. cbv zeta.
  set (hsva := RGBAtoHSVA _). clearbody hsva.
  rewrite updateColor_none, hsva_eta, value_text_again. reflexivity.
Qed.

(** X19.  setColorFromStr is idempotent: a second call with the same
    string leaves the state of the first; and so does a call of updateColor
    without arguments after it. *)
Theorem setColorFromStr_idempotent (parse_color : string -> option Canvas.color)
    (getComputedStyle : option (string -> option string))
    (fraction_digits : N -> JS.number -> string) (settings : Settings.t)
    (st : Picker.t) (str : string) :
  let first := setColorFromStr parse_color getComputedStyle fraction_digits settings st str in
  setColorFromStr parse_color getComputedStyle fraction_digits settings (snd first) str = first
  /\ updateColor fraction_digits settings (snd first) None None = first.
Proof.
  cbv zeta. rewrite !setColorFromStr_showing. cbn [snd]. split.
  - rewrite showing_ctx, held_again, showing_again. reflexivity.
  - apply updateColor_again.
Qed.
